(** * The dual-buffer [Matrix] of matrix.h, embedded in Rocq

    [struct Matrix] owns a host buffer ([data], row major) and a device
    buffer ([dev_data]) of [rows * cols] doubles.  The embedding keeps the
    shape of the C++ code:

    - [int] values are [Z] with 32-bit wrap-around written out;
    - [double] values are IEEE-754 binary64 numbers ([spec_float]);
    - pointers are [option positive], [None] being [nullptr];
    - the host heap and the device heap are finite maps from addresses to
      buffers, a buffer being a list of cells, a cell being either an
      initialised double or indeterminate (just after [malloc]);
    - every method is a state transformer over the two heaps that takes
      [*this] and gives back the updated [*this]; a run that does not
      return normally (undefined behaviour, or the [CE] macro calling
      [abort()]) is [None]. *)

From Stdlib Require Import ZArith Lia.
From Stdlib Require Import Floats.SpecFloat.
From stdpp Require Import base option numbers list strings gmap fin_maps.

Local Open Scope Z_scope.

(** ** Machine integers *)

Module Int.

Definition INT_MIN : Z := - 2 ^ 31.
Definition INT_MAX : Z := 2 ^ 31 - 1.

(** Two's complement reduction of a mathematical integer to [int]. *)
Definition wrap (z : Z) : Z := (z + 2 ^ 31) mod 2 ^ 32 - 2 ^ 31.

Definition add (a b : Z) : Z := wrap (a + b).
Definition mul (a b : Z) : Z := wrap (a * b).

Definition in_range (z : Z) : Prop := INT_MIN <= z <= INT_MAX.

(** [sizeof(double)] and the conversion of an [int] element count to the
    [size_t] byte count of [Size() * sizeof(double)]. *)
Definition sizeof_double : Z := 8.
Definition size_t (z : Z) : Z := z mod 2 ^ 64.
Definition bytes_of (n : Z) : Z := size_t (size_t n * sizeof_double).

End Int.

(** ** Doubles *)

Definition double : Type := spec_float.

Module Double.

Definition prec : Z := 53.
Definition emax : Z := 1024.

Definition sub (a b : double) : double := SFsub prec emax a b.
(** [abs] called on a [double]: the floating-point overload. *)
Definition abs (a : double) : double := SFabs a.
(** [a > b] *)
Definition gt (a b : double) : bool := SFltb b a.
(** [a <= b] *)
Definition le (a b : double) : bool := SFleb a b.

Definition zero : double := S754_zero false.
Definition nan : double := S754_nan.
(** The conversion of an integer literal to [double]. *)
Definition of_Z (z : Z) : double := binary_normalize prec emax z 0 false.
(** The literal [1e-3]: the binary64 number nearest to 1/1000. *)
Definition lit_1e_3 : double := S754_finite false 4611686018427388 (-62).

Definition is_nan (a : double) : bool :=
  match a with S754_nan => true | _ => false end.

End Double.

(** ** Memory *)

(** A cell of a buffer: [Some v] once written, [None] while indeterminate. *)
Abbreviation cell := (option double).
Abbreviation buffer := (list (option double)).
Abbreviation ptr := (option positive).
Abbreviation nullptr := (@None positive).

Record Mem : Type := mkMem {
  host : gmap positive buffer;
  dev : gmap positive buffer
}.

(** Computations over the two heaps. *)
Definition M (A : Type) : Type := Mem -> option (A * Mem).

Definition retM {A} (a : A) : M A := fun s => Some (a, s).
Definition bindM {A B} (c : M A) (k : A -> M B) : M B :=
  fun s => match c s with
           | Some (a, s') => k a s'
           | None => None
           end.

Notation "'do' x <- c ; k" := (bindM c (fun x => k))
  (at level 10, x name, c at level 100, k at level 200).
Notation "c ;; k" := (bindM c (fun _ => k))
  (at level 100, k at level 200, right associativity).

Module Runtime.

(** The element count of a block of [bytes] bytes. *)
Definition elems (bytes : Z) : nat := Z.to_nat (bytes / Int.sizeof_double).

(** [malloc(bytes)]: a block at an unused address, contents indeterminate.
    The allocator is taken to succeed. *)
Definition malloc (bytes : Z) : M ptr := fun s =>
  let p := fresh (dom (host s)) in
  Some (Some p, mkMem (<[p := replicate (elems bytes) None]> (host s)) (dev s)).

(** [free(p)]: nothing for [nullptr], releases a live block, and is
    undefined on anything else. *)
Definition free (p : ptr) : M unit := fun s =>
  match p with
  | None => Some (tt, s)
  | Some a =>
      match host s !! a with
      | Some _ => Some (tt, mkMem (delete a (host s)) (dev s))
      | None => None
      end
  end.

(** [cudaMalloc(&p, bytes); CE;] with a runtime that reports success. *)
Definition cudaMalloc (bytes : Z) : M ptr := fun s =>
  let p := fresh (dom (dev s)) in
  Some (Some p, mkMem (host s) (<[p := replicate (elems bytes) None]> (dev s))).

(** [cudaFree(p)] *)
Definition cudaFree (p : ptr) : M unit := fun s =>
  match p with
  | None => Some (tt, s)
  | Some a =>
      match dev s !! a with
      | Some _ => Some (tt, mkMem (host s) (delete a (dev s)))
      | None => None
      end
  end.

(** The first [n] cells of [src] written over the first [n] cells of [dst]. *)
Definition blit (n : nat) (src dst : buffer) : option buffer :=
  if decide (n <= length src ∧ n <= length dst)%nat
  then Some (take n src ++ drop n dst)
  else None.

(** [cudaMemcpy(dst, src, bytes, cudaMemcpyHostToDevice); CE;] *)
Definition cudaMemcpyHostToDevice (dst src : ptr) (bytes : Z) : M unit := fun s =>
  match dst, src with
  | Some d, Some p =>
      match dev s !! d, host s !! p with
      | Some db, Some hb =>
          match blit (elems bytes) hb db with
          | Some db' => Some (tt, mkMem (host s) (<[d := db']> (dev s)))
          | None => None
          end
      | _, _ => None
      end
  | _, _ => None
  end.

(** [cudaMemcpy(dst, src, bytes, cudaMemcpyDeviceToHost); CE;] *)
Definition cudaMemcpyDeviceToHost (dst src : ptr) (bytes : Z) : M unit := fun s =>
  match dst, src with
  | Some p, Some d =>
      match host s !! p, dev s !! d with
      | Some hb, Some db =>
          match blit (elems bytes) db hb with
          | Some hb' => Some (tt, mkMem (<[p := hb']> (host s)) (dev s))
          | None => None
          end
      | _, _ => None
      end
  | _, _ => None
  end.

(** [p[k]] read from host memory. *)
Definition load (p : ptr) (k : Z) : M double := fun s =>
  match p with
  | Some a =>
      match host s !! a with
      | Some b =>
          if decide (0 <= k) then
            match b !! Z.to_nat k with
            | Some (Some v) => Some (v, s)
            | _ => None
            end
          else None
      | None => None
      end
  | None => None
  end.

(** [p[k] = v] written to host memory. *)
Definition store (p : ptr) (k : Z) (v : double) : M unit := fun s =>
  match p with
  | Some a =>
      match host s !! a with
      | Some b =>
          if decide (0 <= k < Z.of_nat (length b))
          then Some (tt, mkMem (<[a := <[Z.to_nat k := Some v]> b]> (host s)) (dev s))
          else None
      | None => None
      end
  | None => None
  end.

End Runtime.

(** [for (int i = 0; i < hi; ++i) body(i)]: [n] iterations are left and the
    counter stands at [i].  The counter stays below [hi], so [++i] never
    leaves the range of [int]. *)
Fixpoint for_loop (n : nat) (i : Z) (body : Z -> M unit) : M unit :=
  match n with
  | O => retM tt
  | S n' => body i ;; for_loop n' (i + 1) body
  end.

Definition for_int (hi : Z) (body : Z -> M unit) : M unit :=
  for_loop (Z.to_nat hi) 0 body.

(** ** struct Matrix *)

Record Matrix : Type := mkMatrix {
  data : ptr;
  dev_data : ptr;
  rows : Z;
  cols : Z
}.

Definition set_data (p : ptr) (this : Matrix) : Matrix :=
  mkMatrix p (dev_data this) (rows this) (cols this).
Definition set_dev_data (p : ptr) (this : Matrix) : Matrix :=
  mkMatrix (data this) p (rows this) (cols this).

(** [#define IDX2C(i,j,ld) (((j)*(ld))+(i))] *)
Definition IDX2C (i j ld : Z) : Z := Int.add (Int.mul j ld) i.

(** [Matrix() {}] with the default member initialisers. *)
Definition Matrix_default : Matrix := mkMatrix nullptr nullptr 0 0.

(** [Matrix(int inCols, int inRows)] *)
Definition Matrix_sized (inCols inRows : Z) : Matrix :=
  mkMatrix nullptr nullptr inRows inCols.

Definition Size (this : Matrix) : Z := Int.mul (rows this) (cols this).

Definition FreeHost (this : Matrix) : M Matrix :=
  match data this with
  | Some _ => Runtime.free (data this) ;; retM (set_data nullptr this)
  | None => retM this
  end.

Definition FreeDevice (this : Matrix) : M Matrix :=
  match dev_data this with
  | Some _ => Runtime.cudaFree (dev_data this) ;; retM (set_dev_data nullptr this)
  | None => retM this
  end.

(** [~Matrix()] *)
Definition Matrix_destroy (this : Matrix) : M Matrix :=
  do this <- FreeHost this;
  FreeDevice this.

(** [Matrix& operator=(Matrix&& other)], on two distinct objects: the
    result is the pair of [*this] and [other] after the assignment. *)
Definition move_assign (this other : Matrix) : M (Matrix * Matrix) :=
  do this <- FreeHost this;
  do this <- FreeDevice this;
  let this := mkMatrix (data other) (dev_data other) (rows other) (cols other) in
  let other := set_dev_data nullptr (set_data nullptr other) in
  retM (this, other).

(** [Matrix(Matrix&& other)]: the members start from their default
    initialisers and [*this = std::move(other)] follows. *)
Definition move_construct (other : Matrix) : M (Matrix * Matrix) :=
  move_assign Matrix_default other.

Definition AllocHost (this : Matrix) : M Matrix :=
  do this <- FreeHost this;
  do p <- Runtime.malloc (Int.bytes_of (Size this));
  retM (set_data p this).

Definition AllocDevice (this : Matrix) : M Matrix :=
  do this <- FreeDevice this;
  do p <- Runtime.cudaMalloc (Int.bytes_of (Size this));
  retM (set_dev_data p this).

Definition IntoDevMatrix (this : Matrix) : M Matrix :=
  do this <- (match dev_data this with
              | None => AllocDevice this
              | Some _ => retM this
              end);
  Runtime.cudaMemcpyHostToDevice (dev_data this) (data this) (Int.bytes_of (Size this)) ;;
  retM this.

Definition FromDevMatrix (this : Matrix) : M Matrix :=
  do this <- (match data this with
              | None => AllocHost this
              | Some _ => retM this
              end);
  Runtime.cudaMemcpyDeviceToHost (data this) (dev_data this) (Int.bytes_of (Size this)) ;;
  retM this.

(** [double At(int i, int j)] *)
Definition At (this : Matrix) (i j : Z) : M double :=
  Runtime.load (data this) (Int.add (Int.mul i (cols this)) j).

(** [t[IDX2C(i, j, rows)] = At(i, j);] *)
Definition Transposed_step (this : Matrix) (t : ptr) (i j : Z) : M unit :=
  do v <- At this i j;
  Runtime.store t (IDX2C i j (rows this)) v.

(** [double* Transposed()] *)
Definition Transposed (this : Matrix) : M ptr :=
  do t <- Runtime.malloc (Int.bytes_of (Size this));
  for_int (rows this) (fun i =>
    for_int (cols this) (fun j =>
      Transposed_step this t i j)) ;;
  retM t.

Definition IntoDevMatrix_ColMajor (this : Matrix) : M Matrix :=
  do this <- (match dev_data this with
              | None => AllocDevice this
              | Some _ => retM this
              end);
  do t <- Transposed this;
  Runtime.cudaMemcpyHostToDevice (dev_data this) t (Int.bytes_of (Size this)) ;;
  Runtime.free t ;;
  retM this.

Definition FromDevMatrix_ColMajor (this : Matrix) : M Matrix :=
  do this <- (match data this with
              | None => AllocHost this
              | Some _ => retM this
              end);
  Runtime.cudaMemcpyDeviceToHost (data this) (dev_data this) (Int.bytes_of (Size this)) ;;
  do fixed <- Transposed this;
  Runtime.free (data this) ;;
  retM (set_data fixed this).

(** The loop of [IsDeltaEqual]: [n] iterations are left, the counter
    stands at [i]; the first pair further apart than [delta] ends it. *)
Fixpoint delta_loop (this other : Matrix) (delta : double) (n : nat) (i : Z) : M bool :=
  match n with
  | O => retM true
  | S n' =>
      do a <- Runtime.load (data this) i;
      do b <- Runtime.load (data other) i;
      if Double.gt (Double.abs (Double.sub a b)) delta
      then retM false
      else delta_loop this other delta n' (i + 1)
  end.

(** [bool IsDeltaEqual(const Matrix& other, double delta)] *)
Definition IsDeltaEqual (this other : Matrix) (delta : double) : M bool :=
  if decide (cols this ≠ cols other ∨ rows this ≠ rows other)
  then retM false
  else delta_loop this other delta (Z.to_nat (Size this)) 0.

(** The default argument [delta = 1e-3]. *)
Definition IsDeltaEqual_default (this other : Matrix) : M bool :=
  IsDeltaEqual this other Double.lit_1e_3.

(** ** Well-formed matrices *)

(** The dimensions are non-negative and the element count fits in [int]. *)
Definition dims_ok (this : Matrix) : Prop :=
  0 <= rows this ∧ 0 <= cols this ∧ rows this * cols this <= Int.INT_MAX.

(** The host pointer is null or points to a live host block. *)
Definition owns_host (s : Mem) (this : Matrix) : Prop :=
  ∀ p, data this = Some p → is_Some (host s !! p).

(** The device pointer is null or points to a live device block. *)
Definition owns_dev (s : Mem) (this : Matrix) : Prop :=
  ∀ d, dev_data this = Some d → is_Some (dev s !! d).

(** The host buffer is populated: it is live and holds the [rows * cols]
    initialised values [vals]. *)
Definition host_populated (s : Mem) (this : Matrix) (vals : list double) : Prop :=
  dims_ok this ∧
  Z.of_nat (length vals) = rows this * cols this ∧
  ∃ p, data this = Some p ∧ host s !! p = Some (Some <$> vals).

(** The device buffer, when there is one, is a live block of
    [rows * cols] cells (what [AllocDevice] hands out). *)
Definition dev_sized (s : Mem) (this : Matrix) : Prop :=
  ∀ d, dev_data this = Some d →
       ∃ b, dev s !! d = Some b ∧ Z.of_nat (length b) = rows this * cols this.

(** What is left of a heap once the block of [p] is released. *)
Definition release (p : ptr) (h : gmap positive buffer) : gmap positive buffer :=
  match p with
  | Some a => delete a h
  | None => h
  end.

(** The column-major listing of the [r] x [c] matrix whose row-major
    listing is [vals]: position [j * r + i] holds element [(i, j)], which
    [vals] has at [i * c + j]. *)
Definition col_major (r c : Z) (vals : list double) : list double :=
  (λ k, default Double.zero (vals !! Z.to_nat (k mod r * c + k / r))) <$> seqZ 0 (r * c).

(** The loop invariant of [Transposed]: the target [tb] has its full
    length, and every element [(i, j)] that comes before position [n] of the
    row-major traversal has been written to [j * r + i]. *)
Definition filled (r c : Z) (vals : list double) (n : Z) (tb : buffer) : Prop :=
  Z.of_nat (length tb) = r * c ∧
  ∀ i j, 0 <= i < r → 0 <= j < c → i * c + j < n →
         tb !! Z.to_nat (j * r + i) = Some (vals !! Z.to_nat (i * c + j)).

(** The host buffer, when there is one, is a live block of [rows * cols]
    cells (what [AllocHost] hands out). *)
Definition host_sized (s : Mem) (this : Matrix) : Prop :=
  ∀ p, data this = Some p →
       ∃ b, host s !! p = Some b ∧ Z.of_nat (length b) = rows this * cols this.

(** A method that, whenever it returns, returns a matrix of the same
    dimensions. *)
Definition keeps_dims (f : Matrix → M Matrix) : Prop :=
  ∀ this s this' s',
    f this s = Some (this', s') → rows this' = rows this ∧ cols this' = cols this.

(** ** The cuBLAS status strings *)

(** A [cublasStatus_t] is an [int]-valued enumeration.  The header that
    gives the enumerators their values is not part of the repository, so
    the values of the eight enumerators that [cublasGetErrorString] names
    are a parameter. *)
Record cublas_enum : Type := mkCublasEnum {
  CUBLAS_STATUS_SUCCESS : Z;
  CUBLAS_STATUS_NOT_INITIALIZED : Z;
  CUBLAS_STATUS_ALLOC_FAILED : Z;
  CUBLAS_STATUS_INVALID_VALUE : Z;
  CUBLAS_STATUS_ARCH_MISMATCH : Z;
  CUBLAS_STATUS_MAPPING_ERROR : Z;
  CUBLAS_STATUS_EXECUTION_FAILED : Z;
  CUBLAS_STATUS_INTERNAL_ERROR : Z
}.

(** The statuses that the [switch] of [cublasGetErrorString] lists. *)
Definition cublas_listed (E : cublas_enum) : list Z :=
  [CUBLAS_STATUS_SUCCESS E; CUBLAS_STATUS_NOT_INITIALIZED E;
   CUBLAS_STATUS_ALLOC_FAILED E; CUBLAS_STATUS_INVALID_VALUE E;
   CUBLAS_STATUS_ARCH_MISMATCH E; CUBLAS_STATUS_MAPPING_ERROR E;
   CUBLAS_STATUS_EXECUTION_FAILED E; CUBLAS_STATUS_INTERNAL_ERROR E].

(** [const char* cublasGetErrorString(cublasStatus_t status)]: the [case]
    labels in the order of the source, then the [return] after the
    [switch]. *)
Definition cublasGetErrorString (E : cublas_enum) (status : Z) : string :=
  (if decide (status = CUBLAS_STATUS_SUCCESS E) then "CUBLAS_STATUS_SUCCESS"
   else if decide (status = CUBLAS_STATUS_NOT_INITIALIZED E) then "CUBLAS_STATUS_NOT_INITIALIZED"
   else if decide (status = CUBLAS_STATUS_ALLOC_FAILED E) then "CUBLAS_STATUS_ALLOC_FAILED"
   else if decide (status = CUBLAS_STATUS_INVALID_VALUE E) then "CUBLAS_STATUS_INVALID_VALUE"
   else if decide (status = CUBLAS_STATUS_ARCH_MISMATCH E) then "CUBLAS_STATUS_ARCH_MISMATCH"
   else if decide (status = CUBLAS_STATUS_MAPPING_ERROR E) then "CUBLAS_STATUS_MAPPING_ERROR"
   else if decide (status = CUBLAS_STATUS_EXECUTION_FAILED E) then "CUBLAS_STATUS_EXECUTION_FAILED"
   else if decide (status = CUBLAS_STATUS_INTERNAL_ERROR E) then "CUBLAS_STATUS_INTERNAL_ERROR"
   else "unknown error")%string.

(** ** Concrete matrices *)

Module Ex.

(** [[1,2,3],[4,5,6]]: [Matrix(3, 2)] with its host buffer at address 1. *)
Definition vals23 : list double := Double.of_Z <$> [1; 2; 3; 4; 5; 6].
Definition m23 : Matrix := set_data (Some 1%positive) (Matrix_sized 3 2).
Definition s23 : Mem := mkMem {[ 1%positive := Some <$> vals23 ]} ∅.

(** What the host buffer of [m23] holds after a column-major push and a
    column-major pull. *)
Definition back23 : list double := Double.of_Z <$> [1; 5; 4; 3; 2; 6].

(** [[1,2],[3,4]]: [Matrix(2, 2)] with its host buffer at address 1. *)
Definition vals22 : list double := Double.of_Z <$> [1; 2; 3; 4].
Definition m22 : Matrix := set_data (Some 1%positive) (Matrix_sized 2 2).
Definition s22 : Mem := mkMem {[ 1%positive := Some <$> vals22 ]} ∅.

(** Two matrices that own both of their buffers: [mA] is 2 x 2 with its
    buffers at address 1, [mB] is 1 x 3 with its buffers at address 2. *)
Definition mA : Matrix := mkMatrix (Some 1%positive) (Some 1%positive) 2 2.
Definition mB : Matrix := mkMatrix (Some 2%positive) (Some 2%positive) 1 3.
Definition sAB : Mem :=
  mkMem (<[ 2%positive := Some <$> (Double.of_Z <$> [7; 8; 9]) ]>
           {[ 1%positive := Some <$> vals22 ]})
        (<[ 2%positive := replicate 3 None ]>
           {[ 1%positive := replicate 4 None ]}).

(** Two 1 x 1 matrices, one holding NaN and one holding 0. *)
Definition mNaN : Matrix := set_data (Some 1%positive) (Matrix_sized 1 1).
Definition mZero : Matrix := set_data (Some 2%positive) (Matrix_sized 1 1).
Definition sNaN : Mem :=
  mkMem (<[ 2%positive := [Some Double.zero] ]> {[ 1%positive := [Some Double.nan] ]}) ∅.

(** A 2 x 3 matrix that has both buffers, the device buffer holding
    1,...,6 and the host buffer holding 0,...,0. *)
Definition mD : Matrix := mkMatrix (Some 1%positive) (Some 1%positive) 2 3.
Definition sD : Mem :=
  mkMem {[ 1%positive := Some <$> (Double.of_Z <$> [0; 0; 0; 0; 0; 0]) ]}
        {[ 1%positive := Some <$> vals23 ]}.

(** The same device buffer, owned by a matrix that has no host buffer. *)
Definition mD0 : Matrix := mkMatrix nullptr (Some 1%positive) 2 3.
Definition sD0 : Mem := mkMem ∅ {[ 1%positive := Some <$> vals23 ]}.

(** A row vector: [Matrix(3, 1)] holding 1,2,3 at host address 1. *)
Definition vals13 : list double := Double.of_Z <$> [1; 2; 3].
Definition m13 : Matrix := set_data (Some 1%positive) (Matrix_sized 3 1).
Definition s13 : Mem := mkMem {[ 1%positive := Some <$> vals13 ]} ∅.

(** Enumerator values as cuBLAS headers give them. *)
Definition cublas_values : cublas_enum := mkCublasEnum 0 1 3 7 8 11 13 14.

End Ex.

(** ** Integer facts *)

Lemma wrap_small (z : Z) : Int.in_range z → Int.wrap z = z.
Proof.
  unfold Int.in_range, Int.INT_MIN, Int.INT_MAX, Int.wrap. intros Hz.
  rewrite Z.mod_small by lia. lia.
Qed.

Lemma Size_exact (this : Matrix) :
  Int.in_range (rows this * cols this) → Size this = rows this * cols this.
Proof. intros H. unfold Size, Int.mul. by apply wrap_small. Qed.

Lemma dims_ok_range (this : Matrix) :
  dims_ok this → Int.in_range (rows this * cols this) ∧ 0 <= rows this * cols this.
Proof.
  unfold dims_ok, Int.in_range, Int.INT_MIN. intros (Hr & Hc & Hm).
  assert (0 <= rows this * cols this) by lia. lia.
Qed.

Lemma elems_bytes_of (n : Z) :
  0 <= n <= Int.INT_MAX → Runtime.elems (Int.bytes_of n) = Z.to_nat n.
Proof.
  unfold Int.INT_MAX, Runtime.elems, Int.bytes_of, Int.size_t, Int.sizeof_double.
  intros Hn. rewrite (Z.mod_small n) by lia. rewrite Z.mod_small by lia.
  by rewrite Z.div_mul.
Qed.

Lemma elems_Size (this : Matrix) :
  dims_ok this →
  Runtime.elems (Int.bytes_of (Size this)) = Z.to_nat (rows this * cols this).
Proof.
  intros Hd. destruct (dims_ok_range _ Hd) as [Hr H0].
  rewrite (Size_exact _ Hr). apply elems_bytes_of. unfold dims_ok in Hd. lia.
Qed.

(** ** Releasing buffers *)

Lemma FreeHost_null (this : Matrix) (s : Mem) :
  data this = nullptr → FreeHost this s = Some (this, s).
Proof. intros H. unfold FreeHost. by rewrite H. Qed.

Lemma FreeDevice_null (this : Matrix) (s : Mem) :
  dev_data this = nullptr → FreeDevice this s = Some (this, s).
Proof. intros H. unfold FreeDevice. by rewrite H. Qed.

Lemma FreeHost_run (this : Matrix) (s : Mem) :
  owns_host s this →
  FreeHost this s =
    Some (set_data nullptr this, mkMem (release (data this) (host s)) (dev s)).
Proof.
  intros Ho. unfold FreeHost, owns_host in *. destruct this as [[p|] d r c], s as [h dv]; simpl in *.
  - destruct (Ho p eq_refl) as [b Hb]. unfold bindM, Runtime.free. simpl. by rewrite Hb.
  - done.
Qed.

Lemma FreeDevice_run (this : Matrix) (s : Mem) :
  owns_dev s this →
  FreeDevice this s =
    Some (set_dev_data nullptr this, mkMem (host s) (release (dev_data this) (dev s))).
Proof.
  intros Ho. unfold FreeDevice, owns_dev in *. destruct this as [p [d|] r c], s as [h dv]; simpl in *.
  - destruct (Ho d eq_refl) as [b Hb]. unfold bindM, Runtime.cudaFree. simpl. by rewrite Hb.
  - done.
Qed.

Lemma FreeHost_inv (this this' : Matrix) (s s' : Mem) :
  FreeHost this s = Some (this', s') →
  this' = set_data nullptr this ∧ s' = mkMem (release (data this) (host s)) (dev s).
Proof.
  unfold FreeHost, bindM, Runtime.free, retM.
  destruct this as [[p|] d r c], s as [h dv]; simpl.
  - destruct (h !! p); [|done]. by intros [= <- <-].
  - by intros [= <- <-].
Qed.

Lemma FreeDevice_inv (this this' : Matrix) (s s' : Mem) :
  FreeDevice this s = Some (this', s') →
  this' = set_dev_data nullptr this ∧ s' = mkMem (host s) (release (dev_data this) (dev s)).
Proof.
  unfold FreeDevice, bindM, Runtime.cudaFree, retM.
  destruct this as [p [d|] r c], s as [h dv]; simpl.
  - destruct (dv !! d); [|done]. by intros [= <- <-].
  - by intros [= <- <-].
Qed.

Lemma Matrix_destroy_null (this : Matrix) (s : Mem) :
  data this = nullptr → dev_data this = nullptr →
  Matrix_destroy this s = Some (this, s).
Proof.
  intros Hd Hv. unfold Matrix_destroy, bindM.
  rewrite (FreeHost_null _ _ Hd). by apply FreeDevice_null.
Qed.

(** ** Move assignment *)

Lemma move_assign_run (this other : Matrix) (s : Mem) :
  owns_host s this → owns_dev s this →
  move_assign this other s =
    Some ((mkMatrix (data other) (dev_data other) (rows other) (cols other),
           mkMatrix nullptr nullptr (rows other) (cols other)),
          mkMem (release (data this) (host s)) (release (dev_data this) (dev s))).
Proof.
  intros Hh Hd. unfold move_assign, bindM.
  rewrite (FreeHost_run _ _ Hh).
  rewrite FreeDevice_run; [done|].
  intros d Hd'. simpl in *. by apply Hd.
Qed.

(** ** The transposition loops *)

Lemma index_inj (n i j i' j' : Z) :
  0 <= i < n → 0 <= i' < n → j * n + i = j' * n + i' → i = i' ∧ j = j'.
Proof.
  intros Hi Hi' E.
  assert (j = j') as -> by nia. lia.
Qed.

Lemma index_bound (r c i j : Z) :
  0 <= i < r → 0 <= j < c → 0 <= i * c + j < r * c.
Proof. intros Hi Hj. nia. Qed.

Lemma filled_step (r c : Z) (vals : list double) (i j : Z) (tb : buffer) :
  0 <= i < r → 0 <= j < c →
  filled r c vals (i * c + j) tb →
  filled r c vals (i * c + (j + 1))
         (<[Z.to_nat (j * r + i) := vals !! Z.to_nat (i * c + j)]> tb).
Proof.
  intros Hi Hj [Hlen Hf]. split; [by rewrite length_insert|].
  intros i' j' Hi' Hj' Hlt.
  destruct (decide (i' * c + j' = i * c + j)) as [E|NE].
  - destruct (index_inj c j i j' i') as [<- <-]; [lia..|].
    apply list_lookup_insert_eq.
    pose proof (index_bound c r j i Hj Hi). lia.
  - rewrite list_lookup_insert_ne.
    + apply Hf; lia.
    + intros E. apply NE.
      pose proof (index_bound c r j i Hj Hi).
      pose proof (index_bound c r j' i' Hj' Hi').
      destruct (index_inj r i j i' j') as [<- <-]; [lia..|done].
Qed.

Section TransposedLoops.

Variable this : Matrix.
Variables (p t : positive) (vals : list double).
Variables (h dv : gmap positive buffer).

Hypothesis Hdims : dims_ok this.
Hypothesis Hdata : data this = Some p.
Hypothesis Hlen : Z.of_nat (length vals) = rows this * cols this.
Hypothesis Hp : h !! p = Some (Some <$> vals).
Hypothesis Hpt : t ≠ p.

Lemma step_run (i j : Z) (tb : buffer) :
  0 <= i < rows this → 0 <= j < cols this →
  Z.of_nat (length tb) = rows this * cols this →
  Transposed_step this (Some t) i j (mkMem (<[t := tb]> h) dv) =
    Some (tt, mkMem (<[t := <[Z.to_nat (j * rows this + i) :=
                                vals !! Z.to_nat (i * cols this + j)]> tb]> h) dv).
Proof using Hdims Hdata Hlen Hp Hpt.
  intros Hi Hj Htb.
  destruct Hdims as (Hr & Hc & Hmax). unfold Int.INT_MAX in Hmax.
  pose proof (index_bound _ _ _ _ Hi Hj) as Hsrc.
  pose proof (index_bound _ _ _ _ Hj Hi) as Hdst.
  assert (Int.add (Int.mul i (cols this)) j = i * cols this + j) as Ei.
  { unfold Int.add, Int.mul.
    rewrite (wrap_small (i * cols this)); [apply wrap_small|];
      unfold Int.in_range, Int.INT_MIN, Int.INT_MAX; nia. }
  assert (IDX2C i j (rows this) = j * rows this + i) as Ed.
  { unfold IDX2C, Int.add, Int.mul.
    rewrite (wrap_small (j * rows this)); [apply wrap_small|];
      unfold Int.in_range, Int.INT_MIN, Int.INT_MAX; nia. }
  destruct (lookup_lt_is_Some_2 vals (Z.to_nat (i * cols this + j))) as [v Hv]; [lia|].
  unfold Transposed_step, bindM, At, Runtime.load, Runtime.store. simpl.
  rewrite Hdata, Ei, Ed. rewrite lookup_insert_ne by done. rewrite Hp.
  rewrite decide_True by lia.
  rewrite list_lookup_fmap, Hv. simpl.
  rewrite lookup_insert_eq. rewrite decide_True by lia.
  by rewrite insert_insert_eq.
Qed.

Lemma inner_loop_run (i : Z) :
  0 <= i < rows this →
  ∀ (n : nat) (j : Z) (tb : buffer),
    0 <= j → j + Z.of_nat n = cols this →
    filled (rows this) (cols this) vals (i * cols this + j) tb →
    ∃ tb', for_loop n j (fun j => Transposed_step this (Some t) i j)
                    (mkMem (<[t := tb]> h) dv) =
             Some (tt, mkMem (<[t := tb']> h) dv) ∧
           filled (rows this) (cols this) vals (i * cols this + cols this) tb'.
Proof using Hdims Hdata Hlen Hp Hpt.
  intros Hi. induction n as [|n IH]; intros j tb Hj Hn Hf.
  - exists tb. split; [done|]. by replace (cols this) with j at 3 by lia.
  - simpl. unfold bindM at 1.
    rewrite step_run; [|lia..|by destruct Hf].
    apply IH; [lia..|]. apply filled_step; [lia..|done].
Qed.

Lemma outer_loop_run :
  ∀ (n : nat) (i : Z) (tb : buffer),
    0 <= i → i + Z.of_nat n = rows this →
    filled (rows this) (cols this) vals (i * cols this) tb →
    ∃ tb', for_loop n i (fun i => for_int (cols this)
                                    (fun j => Transposed_step this (Some t) i j))
                    (mkMem (<[t := tb]> h) dv) =
             Some (tt, mkMem (<[t := tb']> h) dv) ∧
           filled (rows this) (cols this) vals (rows this * cols this) tb'.
Proof using Hdims Hdata Hlen Hp Hpt.
  induction n as [|n IH]; intros i tb Hi Hn Hf.
  - exists tb. split; [done|]. by replace (rows this) with i at 2 by lia.
  - simpl. unfold bindM at 1, for_int at 1.
    destruct Hdims as (Hr & Hc & _).
    destruct (inner_loop_run i ltac:(lia) (Z.to_nat (cols this)) 0 tb) as (tb1 & -> & Hf1);
      [lia|lia|by rewrite Z.add_0_r|].
    apply IH; [lia..|].
    by replace ((i + 1) * cols this) with (i * cols this + cols this) by lia.
Qed.

End TransposedLoops.

(** ** The column-major listing *)

Lemma col_major_length (r c : Z) (vals : list double) :
  0 <= r * c → Z.of_nat (length (col_major r c vals)) = r * c.
Proof. intros H. unfold col_major. rewrite length_fmap, length_seqZ. lia. Qed.

Lemma index_split (r c : Z) (k : nat) :
  0 <= r → Z.of_nat k < r * c →
  0 <= Z.of_nat k mod r < r ∧ 0 <= Z.of_nat k / r < c ∧
  Z.of_nat k = Z.of_nat k / r * r + Z.of_nat k mod r.
Proof.
  intros Hr Hk.
  assert (0 < r) by (destruct (decide (r = 0)) as [->|]; lia).
  pose proof (Z.mod_pos_bound (Z.of_nat k) r ltac:(lia)).
  pose proof (Z.div_mod (Z.of_nat k) r ltac:(lia)).
  pose proof (Z.div_pos (Z.of_nat k) r ltac:(lia) ltac:(lia)).
  assert (Z.of_nat k / r < c) by (apply Z.div_lt_upper_bound; lia).
  lia.
Qed.

Lemma col_major_lookup (r c : Z) (vals : list double) (i j : Z) :
  Z.of_nat (length vals) = r * c →
  0 <= i < r → 0 <= j < c →
  col_major r c vals !! Z.to_nat (j * r + i) = vals !! Z.to_nat (i * c + j).
Proof.
  intros Hlen Hi Hj.
  pose proof (index_bound _ _ _ _ Hi Hj) as Hsrc.
  pose proof (index_bound _ _ _ _ Hj Hi) as Hdst.
  unfold col_major. rewrite list_lookup_fmap.
  rewrite lookup_seqZ_lt by lia. simpl.
  rewrite Z2Nat.id, Z.add_0_l by lia.
  replace ((j * r + i) mod r) with i
    by (apply (Z.mod_unique _ _ j); lia).
  replace ((j * r + i) / r) with j
    by (apply (Z.div_unique _ _ _ i); lia).
  destruct (lookup_lt_is_Some_2 vals (Z.to_nat (i * c + j))) as [v Hv]; [lia|].
  by rewrite Hv.
Qed.

(** A target that [Transposed] has filled completely is the column-major
    listing. *)
Lemma filled_all (r c : Z) (vals : list double) (tb : buffer) :
  0 <= r → 0 <= c →
  Z.of_nat (length vals) = r * c →
  filled r c vals (r * c) tb →
  tb = Some <$> col_major r c vals.
Proof.
  intros Hr Hc Hlen [Htb Hf]. apply list_eq. intros k.
  destruct (decide (Z.of_nat k < r * c)) as [Hk|Hk].
  - destruct (index_split r c k Hr Hk) as (Hi & Hj & Ek).
    set (i := Z.of_nat k mod r) in *. set (j := Z.of_nat k / r) in *.
    pose proof (index_bound _ _ _ _ Hi Hj).
    replace k with (Z.to_nat (j * r + i)) by lia.
    rewrite Hf by (done || lia).
    rewrite list_lookup_fmap, col_major_lookup by done.
    destruct (lookup_lt_is_Some_2 vals (Z.to_nat (i * c + j))) as [v ->]; [lia|done].
  - rewrite !lookup_ge_None_2; [done|..].
    + rewrite length_fmap. pose proof (col_major_length r c vals ltac:(nia)). lia.
    + lia.
Qed.

(** Transposing a square matrix twice gives the matrix back. *)
Lemma col_major_square (n : Z) (vals : list double) :
  0 <= n → Z.of_nat (length vals) = n * n →
  col_major n n (col_major n n vals) = vals.
Proof.
  intros Hn Hlen. apply list_eq. intros k.
  pose proof (col_major_length n n vals ltac:(nia)) as Hl1.
  pose proof (col_major_length n n (col_major n n vals) ltac:(nia)) as Hl2.
  destruct (decide (Z.of_nat k < n * n)) as [Hk|Hk].
  - destruct (index_split n n k Hn Hk) as (Hi & Hj & Ek).
    set (i := Z.of_nat k mod n) in *. set (j := Z.of_nat k / n) in *.
    replace k with (Z.to_nat (j * n + i)) by lia.
    rewrite col_major_lookup by done.
    by rewrite col_major_lookup.
  - rewrite !lookup_ge_None_2; [done|lia..].
Qed.

(** ** [Transposed] *)

Lemma fresh_host_None (s : Mem) : host s !! fresh (dom (host s)) = None.
Proof. apply not_elem_of_dom, is_fresh. Qed.

Lemma fresh_dev_None (s : Mem) : dev s !! fresh (dom (dev s)) = None.
Proof. apply not_elem_of_dom, is_fresh. Qed.

Lemma Transposed_run (this : Matrix) (s : Mem) (vals : list double) :
  host_populated s this vals →
  Transposed this s =
    Some (Some (fresh (dom (host s))),
          mkMem (<[fresh (dom (host s)) :=
                     Some <$> col_major (rows this) (cols this) vals]> (host s))
                (dev s)).
Proof.
  intros (Hd & Hlen & p & Hdata & Hp).
  pose proof (fresh_host_None s) as Hfresh.
  set (t := fresh (dom (host s))) in *.
  assert (t ≠ p) as Htp by (intros ->; congruence).
  destruct (dims_ok_range _ Hd) as [_ H0]. pose proof Hd as (Hr & Hc & _).
  unfold Transposed, bindM at 1, Runtime.malloc. fold t.
  rewrite (elems_Size _ Hd).
  destruct (outer_loop_run this p t vals (host s) (dev s) Hd Hdata Hlen Hp Htp
              (Z.to_nat (rows this)) 0
              (replicate (Z.to_nat (rows this * cols this)) None))
    as (tb & Hrun & Hf); [lia|lia| |].
  { split; [rewrite length_replicate; lia|].
    intros i j Hi Hj Hlt. pose proof (index_bound _ _ _ _ Hi Hj). lia. }
  unfold bindM at 1, for_int at 1. rewrite Hrun.
  by rewrite (filled_all _ _ _ _ Hr Hc Hlen Hf).
Qed.

(** ** Transfers between host and device *)

Lemma blit_full (n : nat) (src dst : buffer) :
  length src = n → length dst = n → Runtime.blit n src dst = Some src.
Proof.
  intros Hs Hd. unfold Runtime.blit. rewrite decide_True by lia.
  rewrite take_ge, drop_ge by lia. by rewrite app_nil_r.
Qed.

(** The first step of both pushes: after it there is a device buffer of
    [rows * cols] cells, and nothing else has changed. *)
Lemma ensure_dev_run (this : Matrix) (s : Mem) :
  dims_ok this → dev_sized s this →
  ∃ d db,
    (match dev_data this with
     | None => AllocDevice this
     | Some _ => retM this
     end) s = Some (set_dev_data (Some d) this, mkMem (host s) (<[d := db]> (dev s))) ∧
    Z.of_nat (length db) = rows this * cols this.
Proof.
  intros Hd Hs. destruct (dims_ok_range _ Hd) as [_ H0].
  destruct this as [p [d|] r c], s as [h dv]; simpl in *.
  - destruct (Hs d eq_refl) as (db & Hdb & Hlen). exists d, db. split; [|done].
    unfold retM, set_dev_data. simpl. by rewrite (insert_id _ _ _ Hdb).
  - eexists _, _. split.
    + unfold AllocDevice, bindM, FreeDevice, retM, Runtime.cudaMalloc. simpl. reflexivity.
    + rewrite length_replicate.
      rewrite (elems_Size (mkMatrix p None r c) Hd). simpl. lia.
Qed.

Lemma IntoDevMatrix_run (this : Matrix) (s : Mem) (vals : list double) :
  host_populated s this vals → dev_sized s this →
  ∃ d, IntoDevMatrix this s =
         Some (set_dev_data (Some d) this,
               mkMem (host s) (<[d := Some <$> vals]> (dev s))).
Proof.
  intros (Hd & Hlen & p & Hdata & Hp) Hs.
  destruct (dims_ok_range _ Hd) as [_ H0].
  destruct (ensure_dev_run this s Hd Hs) as (d & db & Hrun & Hdb).
  exists d. unfold IntoDevMatrix, bindM at 1. rewrite Hrun.
  unfold bindM, Runtime.cudaMemcpyHostToDevice, retM. simpl.
  rewrite Hdata, lookup_insert_eq, Hp.
  replace (Size (set_dev_data (Some d) this)) with (Size this) by done.
  rewrite (elems_Size _ Hd).
  rewrite blit_full by (rewrite ?length_fmap; lia).
  by rewrite insert_insert_eq.
Qed.

Lemma IntoDevMatrix_ColMajor_run (this : Matrix) (s : Mem) (vals : list double) :
  host_populated s this vals → dev_sized s this →
  ∃ d, IntoDevMatrix_ColMajor this s =
         Some (set_dev_data (Some d) this,
               mkMem (host s)
                     (<[d := Some <$> col_major (rows this) (cols this) vals]> (dev s))).
Proof.
  intros Hpop Hs. pose proof Hpop as (Hd & Hlen & p & Hdata & Hp).
  destruct (dims_ok_range _ Hd) as [_ H0].
  destruct (ensure_dev_run this s Hd Hs) as (d & db & Hrun & Hdb).
  exists d. unfold IntoDevMatrix_ColMajor, bindM at 1. rewrite Hrun.
  unfold bindM at 1.
  rewrite (Transposed_run _ _ vals).
  2:{ split; [exact Hd|]. split; [exact Hlen|]. exists p. split; [exact Hdata|exact Hp]. }
  simpl. pose proof (fresh_host_None s) as Hfresh.
  set (t := fresh (dom (host s))) in *.
  unfold bindM, Runtime.cudaMemcpyHostToDevice, Runtime.free, retM. simpl.
  rewrite !lookup_insert_eq.
  replace (Size (set_dev_data (Some d) this)) with (Size this) by done.
  rewrite (elems_Size _ Hd).
  rewrite blit_full.
  - simpl. rewrite lookup_insert_eq. by rewrite insert_insert_eq, delete_insert_id.
  - rewrite length_fmap. pose proof (col_major_length (rows this) (cols this) vals). lia.
  - lia.
Qed.

(** The pulls, for a matrix that has both buffers: [hb] is what the host
    buffer holds before and [db] what the device buffer holds. *)
Lemma FromDevMatrix_run (this : Matrix) (s : Mem) (p d : positive) (hb db : buffer) :
  dims_ok this →
  data this = Some p → host s !! p = Some hb →
  Z.of_nat (length hb) = rows this * cols this →
  dev_data this = Some d → dev s !! d = Some db →
  Z.of_nat (length db) = rows this * cols this →
  FromDevMatrix this s = Some (this, mkMem (<[p := db]> (host s)) (dev s)).
Proof.
  intros Hd Hdata Hp Hhb Hdev Hdv Hdb.
  destruct (dims_ok_range _ Hd) as [_ H0].
  unfold FromDevMatrix, bindM, Runtime.cudaMemcpyDeviceToHost, retM.
  rewrite Hdata, Hdev. cbv beta iota. rewrite Hdata. cbv beta iota.
  rewrite Hp, Hdv, (elems_Size _ Hd).
  by rewrite blit_full by lia.
Qed.

Lemma FromDevMatrix_ColMajor_run (this : Matrix) (s : Mem) (p d : positive)
    (hb : buffer) (dvals : list double) :
  dims_ok this →
  data this = Some p → host s !! p = Some hb →
  Z.of_nat (length hb) = rows this * cols this →
  dev_data this = Some d → dev s !! d = Some (Some <$> dvals) →
  Z.of_nat (length dvals) = rows this * cols this →
  ∃ t s', FromDevMatrix_ColMajor this s = Some (set_data (Some t) this, s') ∧
          host s' !! t = Some (Some <$> col_major (rows this) (cols this) dvals) ∧
          host s' !! p = None ∧
          dev s' = dev s.
Proof.
  intros Hd Hdata Hp Hhb Hdev Hdv Hdb.
  destruct (dims_ok_range _ Hd) as [_ H0].
  unfold FromDevMatrix_ColMajor, bindM at 1. rewrite Hdata. unfold retM at 1.
  unfold bindM at 1, Runtime.cudaMemcpyDeviceToHost.
  rewrite Hdata, Hdev. cbv beta iota.
  rewrite Hp, Hdv, (elems_Size _ Hd).
  rewrite blit_full by (rewrite ?length_fmap; lia).
  set (s1 := mkMem (<[p := Some <$> dvals]> (host s)) (dev s)).
  unfold bindM at 1.
  rewrite (Transposed_run this s1 dvals).
  2:{ split; [done|]. split; [done|]. exists p. split; [done|]. apply lookup_insert_eq. }
  pose proof (fresh_host_None s1) as Hfresh.
  set (t := fresh (dom (host s1))) in *.
  assert (t ≠ p) as Htp.
  { intros ->. simpl in Hfresh. by rewrite lookup_insert_eq in Hfresh. }
  unfold bindM, Runtime.free, retM. simpl.
  rewrite lookup_insert_ne by done. rewrite lookup_insert_eq.
  eexists _, _. split; [reflexivity|]. simpl.
  rewrite lookup_delete_ne by done. rewrite lookup_insert_eq, lookup_delete_eq. done.
Qed.

(** ** Comparisons of doubles *)

Lemma SFcompare_antisym (x y : double) :
  SFcompare y x = CompOpp <$> SFcompare x y.
Proof.
  destruct x as [sx|sx| |sx mx ex], y as [sy|sy| |sy my ey];
    try destruct sx; try destruct sy; try reflexivity; simpl.
  all: rewrite (Z.compare_antisym ex ey).
  all: replace (Pos.compare_cont Eq my mx) with (CompOpp (Pos.compare_cont Eq mx my))
         by apply Pos.compare_cont_antisym.
  all: by destruct (ex ?= ey)%Z, (Pos.compare_cont Eq mx my).
Qed.

(** Away from NaN, "not greater" and "less or equal" agree. *)
Lemma not_gt_le (x d : double) :
  Double.is_nan x = false → Double.is_nan d = false →
  Double.gt x d = false ↔ Double.le x d = true.
Proof.
  intros Hx Hd. unfold Double.gt, Double.le, SFltb, SFleb.
  rewrite (SFcompare_antisym x d).
  destruct (SFcompare x d) as [[]|] eqn:E; simpl; try done.
  destruct x, d; simpl in *; done.
Qed.

Lemma abs_is_nan (x : double) : Double.is_nan (Double.abs x) = Double.is_nan x.
Proof. by destruct x. Qed.

(** [a - a] is [+0], or NaN when [a] is infinite or NaN. *)
Lemma sub_self (a : double) :
  Double.abs (Double.sub a a) = Double.zero ∨ Double.abs (Double.sub a a) = Double.nan.
Proof.
  destruct a as [[]|[]| |s m e]; simpl; auto.
  left. unfold Double.sub, SFsub. by rewrite Z.sub_diag.
Qed.

Lemma gt_abs_sub_self (a delta : double) :
  Double.le Double.zero delta = true →
  Double.gt (Double.abs (Double.sub a a)) delta = false.
Proof.
  intros Hd. destruct (sub_self a) as [-> | ->].
  - by destruct delta as [[]|[]| |[] m e].
  - by destruct delta.
Qed.

(** ** [IsDeltaEqual] *)

Section DeltaLoop.

Variables (A B : Matrix) (s : Mem) (va vb : list double) (delta : double).
Variables (pa pb : positive).

Hypothesis HA : data A = Some pa.
Hypothesis HB : data B = Some pb.
Hypothesis Hva : host s !! pa = Some (Some <$> va).
Hypothesis Hvb : host s !! pb = Some (Some <$> vb).
Hypothesis Hlen : length va = length vb.

Lemma delta_loop_run :
  ∀ (n : nat) (i : Z),
    0 <= i → i + Z.of_nat n = Z.of_nat (length va) →
    ∃ b, delta_loop A B delta n i s = Some (b, s) ∧
         (b = true ↔
          ∀ (k : nat) (x y : double),
            i <= Z.of_nat k → va !! k = Some x → vb !! k = Some y →
            Double.gt (Double.abs (Double.sub x y)) delta = false).
Proof using HA HB Hva Hvb Hlen.
  induction n as [|n IH]; intros i Hi Hn.
  - exists true. split; [done|]. split; [|done].
    intros _ k x y Hk Hx _. apply lookup_lt_Some in Hx. lia.
  - destruct (lookup_lt_is_Some_2 va (Z.to_nat i)) as [x Hx]; [lia|].
    destruct (lookup_lt_is_Some_2 vb (Z.to_nat i)) as [y Hy]; [lia|].
    simpl. unfold bindM, Runtime.load. rewrite HA, HB. cbv beta iota.
    rewrite Hva, decide_True, list_lookup_fmap, Hx by done. simpl.
    rewrite Hvb, decide_True, list_lookup_fmap, Hy by done. simpl.
    destruct (Double.gt (Double.abs (Double.sub x y)) delta) eqn:Hgt.
    + exists false. split; [done|]. split; [done|].
      intros Hall. rewrite (Hall (Z.to_nat i) x y) in Hgt; [done|lia|done..].
    + destruct (IH (i + 1)) as (b & Hrun & Hb); [lia..|].
      exists b. split; [done|]. rewrite Hb. split.
      * intros Hall k x' y' Hk Hx' Hy'.
        destruct (decide (Z.of_nat k = i)) as [E|NE].
        -- replace k with (Z.to_nat i) in * by lia. congruence.
        -- apply (Hall k); [lia|done..].
      * intros Hall k x' y' Hk. apply Hall. lia.
Qed.

End DeltaLoop.

Lemma IsDeltaEqual_mismatch (A B : Matrix) (delta : double) (s : Mem) :
  cols A ≠ cols B ∨ rows A ≠ rows B →
  IsDeltaEqual A B delta s = Some (false, s).
Proof. intros H. unfold IsDeltaEqual. by rewrite decide_True. Qed.

Lemma IsDeltaEqual_run (A B : Matrix) (s : Mem) (va vb : list double) (delta : double) :
  host_populated s A va → host_populated s B vb →
  cols A = cols B → rows A = rows B →
  ∃ b, IsDeltaEqual A B delta s = Some (b, s) ∧
       (b = true ↔
        ∀ (k : nat) (x y : double),
          va !! k = Some x → vb !! k = Some y →
          Double.gt (Double.abs (Double.sub x y)) delta = false).
Proof.
  intros (Hd & Hla & pa & HA & Hva) (_ & Hlb & pb & HB & Hvb) Hc Hr.
  destruct (dims_ok_range _ Hd) as [Hrange H0].
  unfold IsDeltaEqual. rewrite decide_False by (intros [|]; done).
  rewrite (Size_exact _ Hrange).
  destruct (delta_loop_run A B s va vb delta pa pb HA HB Hva Hvb ltac:(lia)
              (Z.to_nat (rows A * cols A)) 0) as (b & Hrun & Hb); [lia..|].
  exists b. split; [done|]. rewrite Hb. split.
  - intros Hall k x y. apply Hall. lia.
  - intros Hall k x y _. apply Hall.
Qed.

(** ** The column-major round trip, in general *)

(** A column-major push followed by a column-major pull runs [Transposed]
    twice with the same [rows] and [cols]: the host buffer ends up holding
    the column-major listing of the column-major listing. *)
Lemma colmajor_roundtrip_run (this : Matrix) (s : Mem) (vals : list double) :
  host_populated s this vals → dev_sized s this →
  ∃ this' s' t,
    (do m <- IntoDevMatrix_ColMajor this; FromDevMatrix_ColMajor m) s = Some (this', s') ∧
    data this' = Some t ∧ rows this' = rows this ∧ cols this' = cols this ∧
    host s' !! t =
      Some (Some <$> col_major (rows this) (cols this)
                       (col_major (rows this) (cols this) vals)).
Proof.
  intros Hpop Hs. pose proof Hpop as (Hd & Hlen & p & Hdata & Hp).
  destruct (dims_ok_range _ Hd) as [_ H0].
  destruct (IntoDevMatrix_ColMajor_run this s vals Hpop Hs) as (d & Hpush).
  unfold bindM. rewrite Hpush.
  destruct (FromDevMatrix_ColMajor_run (set_dev_data (Some d) this)
              (mkMem (host s) (<[d := Some <$> col_major (rows this) (cols this) vals]> (dev s)))
              p d (Some <$> vals) (col_major (rows this) (cols this) vals))
    as (t & s' & Hpull & Ht & _ & _); try done.
  - by rewrite length_fmap.
  - apply lookup_insert_eq.
  - by apply col_major_length.
  - exists (set_data (Some t) (set_dev_data (Some d) this)), s', t. by rewrite Hpull.
Qed.

(** ** The buffers a matrix owns *)

(** A constructed matrix owns nothing, which satisfies every ownership
    condition. *)
Lemma Matrix_sized_owns (inCols inRows : Z) (s : Mem) :
  owns_host s (Matrix_sized inCols inRows) ∧
  owns_dev s (Matrix_sized inCols inRows) ∧
  dev_sized s (Matrix_sized inCols inRows).
Proof. repeat split; intros p H; discriminate H. Qed.

(** [AllocHost] hands out a live block of [rows * cols] indeterminate
    cells and leaves the device heap alone. *)
Lemma AllocHost_run (this : Matrix) (s : Mem) :
  dims_ok this → owns_host s this →
  ∃ p s',
    AllocHost this s = Some (set_data (Some p) this, s') ∧
    host s' !! p = Some (replicate (Z.to_nat (rows this * cols this)) None) ∧
    dev s' = dev s.
Proof.
  intros Hd Ho. unfold AllocHost, bindM at 1. rewrite (FreeHost_run _ _ Ho).
  unfold bindM, Runtime.malloc, retM. simpl.
  eexists _, _. split; [reflexivity|]. simpl.
  rewrite lookup_insert_eq.
  replace (Size (set_data nullptr this)) with (Size this) by done.
  by rewrite (elems_Size _ Hd).
Qed.

(** [AllocDevice] establishes [dev_sized] and leaves the host heap alone. *)
Lemma AllocDevice_run (this : Matrix) (s : Mem) :
  dims_ok this → owns_dev s this →
  ∃ d s',
    AllocDevice this s = Some (set_dev_data (Some d) this, s') ∧
    dev_sized s' (set_dev_data (Some d) this) ∧
    host s' = host s.
Proof.
  intros Hd Ho. destruct (dims_ok_range _ Hd) as [_ H0].
  unfold AllocDevice, bindM at 1. rewrite (FreeDevice_run _ _ Ho).
  unfold bindM, Runtime.cudaMalloc, retM. simpl.
  eexists _, _. split; [reflexivity|]. split; [|done].
  intros d [= <-]. simpl. eexists. split; [apply lookup_insert_eq|].
  rewrite length_replicate.
  replace (Size (set_dev_data nullptr this)) with (Size this) by done.
  rewrite (elems_Size _ Hd). lia.
Qed.

(** Both pushes keep [dev_sized]. *)
Lemma IntoDevMatrix_dev_sized (this : Matrix) (s : Mem) (vals : list double) :
  host_populated s this vals → dev_sized s this →
  ∃ this' s', IntoDevMatrix this s = Some (this', s') ∧ dev_sized s' this'.
Proof.
  intros Hpop Hs. destruct (IntoDevMatrix_run this s vals Hpop Hs) as (d & Hrun).
  eexists _, _. split; [exact Hrun|].
  intros d' [= <-]. simpl. eexists. split; [apply lookup_insert_eq|].
  rewrite length_fmap. by destruct Hpop as (_ & Hlen & _).
Qed.

Lemma IntoDevMatrix_ColMajor_dev_sized (this : Matrix) (s : Mem) (vals : list double) :
  host_populated s this vals → dev_sized s this →
  ∃ this' s', IntoDevMatrix_ColMajor this s = Some (this', s') ∧ dev_sized s' this'.
Proof.
  intros Hpop Hs. destruct (IntoDevMatrix_ColMajor_run this s vals Hpop Hs) as (d & Hrun).
  eexists _, _. split; [exact Hrun|].
  intros d' [= <-]. simpl. eexists. split; [apply lookup_insert_eq|].
  rewrite length_fmap. apply col_major_length.
  destruct Hpop as (Hd & _). by apply dims_ok_range.
Qed.

(** ** Facts about the concrete matrices *)

Lemma m23_populated : host_populated Ex.s23 Ex.m23 Ex.vals23.
Proof.
  split; [unfold dims_ok, Int.INT_MAX; simpl; lia|]. split; [reflexivity|].
  exists 1%positive. split; reflexivity.
Qed.

Lemma m23_dev_sized : dev_sized Ex.s23 Ex.m23.
Proof. intros d Hd. discriminate Hd. Qed.

Lemma m22_populated : host_populated Ex.s22 Ex.m22 Ex.vals22.
Proof.
  split; [unfold dims_ok, Int.INT_MAX; simpl; lia|]. split; [reflexivity|].
  exists 1%positive. split; reflexivity.
Qed.

Lemma m22_dev_sized : dev_sized Ex.s22 Ex.m22.
Proof. intros d Hd. discriminate Hd. Qed.

Lemma mB_owns_host : owns_host Ex.sAB Ex.mB.
Proof. intros p [= <-]. by eexists. Qed.

Lemma mB_owns_dev : owns_dev Ex.sAB Ex.mB.
Proof. intros p [= <-]. by eexists. Qed.

Lemma mNaN_populated : host_populated Ex.sNaN Ex.mNaN [Double.nan].
Proof.
  split; [unfold dims_ok, Int.INT_MAX; simpl; lia|]. split; [reflexivity|].
  exists 1%positive. split; reflexivity.
Qed.

Lemma mZero_populated : host_populated Ex.sNaN Ex.mZero [Double.zero].
Proof.
  split; [unfold dims_ok, Int.INT_MAX; simpl; lia|]. split; [reflexivity|].
  exists 2%positive. split; reflexivity.
Qed.

(** * The properties of the specification *)

(** C6 (as the code has it): for all [inCols], [inRows] >= 0,
    [Matrix(inCols, inRows)] has [cols = inCols] and [rows = inRows]
    (columns first, then rows) and both pointers null; [Size()] is the
    32-bit [int] product of [rows] and [cols], which is [rows * cols]
    provided [rows * cols <= INT_MAX]; the default-constructed matrix has
    [rows = cols = 0] and both pointers null. *)
Theorem Matrix_constructed (inCols inRows : Z) :
  0 <= inCols → 0 <= inRows →
  cols (Matrix_sized inCols inRows) = inCols ∧
  rows (Matrix_sized inCols inRows) = inRows ∧
  Size (Matrix_sized inCols inRows) =
    Int.mul (rows (Matrix_sized inCols inRows)) (cols (Matrix_sized inCols inRows)) ∧
  (inRows * inCols <= Int.INT_MAX → Size (Matrix_sized inCols inRows) = inRows * inCols) ∧
  data (Matrix_sized inCols inRows) = nullptr ∧
  dev_data (Matrix_sized inCols inRows) = nullptr ∧
  rows Matrix_default = 0 ∧ cols Matrix_default = 0 ∧
  data Matrix_default = nullptr ∧ dev_data Matrix_default = nullptr.
Proof.
  intros Hc Hr. repeat split.
  intros Hmax. apply Size_exact. simpl.
  unfold Int.in_range, Int.INT_MIN. nia.
Qed.

Lemma Matrix_constructed_witness :
  cols (Matrix_sized 3 2) = 3 ∧ rows (Matrix_sized 3 2) = 2 ∧
  Size (Matrix_sized 3 2) = 6 ∧
  data (Matrix_sized 3 2) = nullptr ∧ dev_data (Matrix_sized 3 2) = nullptr.
Proof.
  destruct (Matrix_constructed 3 2) as (Hc & Hr & _ & Hs & Hd & Hv & _); [lia|lia|].
  split; [exact Hc|]. split; [exact Hr|]. split; [|by split].
  apply Hs. unfold Int.INT_MAX. lia.
Defined.

(** C6, where it fails: [Matrix(65536, 65536)] has non-negative
    dimensions whose product 4294967296 does not fit in [int]; [Size()] is
    0, not [rows * cols]. *)
Lemma Matrix_sized_Size_overflows :
  0 <= 65536 ∧
  rows (Matrix_sized 65536 65536) * cols (Matrix_sized 65536 65536) = 4294967296 ∧
  Size (Matrix_sized 65536 65536) = 0 ∧
  Size (Matrix_sized 65536 65536) ≠
    rows (Matrix_sized 65536 65536) * cols (Matrix_sized 65536 65536).
Proof. split; [lia|]. split; [reflexivity|]. split; [reflexivity|]. discriminate. Qed.

(** C7: [FreeHost] (respectively [FreeDevice]) on a null host
    (respectively device) pointer leaves the matrix and both heaps as they
    are; on a matrix that owns its buffer the call returns; and after any
    call that returns the pointer is null and a second call changes
    nothing, so nothing is released twice. *)
Theorem free_null_is_noop (this : Matrix) (s : Mem) :
  (data this = nullptr → FreeHost this s = Some (this, s)) ∧
  (dev_data this = nullptr → FreeDevice this s = Some (this, s)) ∧
  (owns_host s this → is_Some (FreeHost this s)) ∧
  (owns_dev s this → is_Some (FreeDevice this s)) ∧
  (∀ this' s', FreeHost this s = Some (this', s') →
               data this' = nullptr ∧ FreeHost this' s' = Some (this', s')) ∧
  (∀ this' s', FreeDevice this s = Some (this', s') →
               dev_data this' = nullptr ∧ FreeDevice this' s' = Some (this', s')).
Proof.
  split; [apply FreeHost_null|]. split; [apply FreeDevice_null|].
  split; [intros H; rewrite (FreeHost_run _ _ H); by eexists|].
  split; [intros H; rewrite (FreeDevice_run _ _ H); by eexists|].
  split.
  - intros this' s' H. apply FreeHost_inv in H as [-> ->]. split; [done|].
    by apply FreeHost_null.
  - intros this' s' H. apply FreeDevice_inv in H as [-> ->]. split; [done|].
    by apply FreeDevice_null.
Qed.

Lemma free_null_is_noop_witness :
  FreeHost (Matrix_sized 3 2) Ex.s23 = Some (Matrix_sized 3 2, Ex.s23) ∧
  FreeDevice Ex.m23 Ex.s23 = Some (Ex.m23, Ex.s23) ∧
  is_Some (FreeHost Ex.mB Ex.sAB).
Proof.
  split; [|split].
  - apply (proj1 (free_null_is_noop (Matrix_sized 3 2) Ex.s23)). reflexivity.
  - apply (proj1 (proj2 (free_null_is_noop Ex.m23 Ex.s23))). reflexivity.
  - apply (proj1 (proj2 (proj2 (free_null_is_noop Ex.mB Ex.sAB)))).
    intros p H. injection H as <-. eexists. reflexivity.
Defined.

(** C2: after the move assignment [B = move(A)] of a matrix [B] that owns
    its buffers, [B] holds the host pointer, device pointer, rows and cols
    that [A] had; the heaps are the ones before the call with the blocks of
    [B]'s old pointers released; and [A] has both pointers null, so that
    destroying [A] changes nothing. *)
Theorem move_assign_transfers (A B : Matrix) (s : Mem) :
  owns_host s B → owns_dev s B →
  ∃ B' A' s',
    move_assign B A s = Some ((B', A'), s') ∧
    data B' = data A ∧ dev_data B' = dev_data A ∧
    rows B' = rows A ∧ cols B' = cols A ∧
    host s' = release (data B) (host s) ∧
    dev s' = release (dev_data B) (dev s) ∧
    data A' = nullptr ∧ dev_data A' = nullptr ∧
    Matrix_destroy A' s' = Some (A', s').
Proof.
  intros Hh Hd. eexists _, _, _. split; [by apply move_assign_run|].
  do 8 (split; [reflexivity|]). by apply Matrix_destroy_null.
Qed.

Lemma move_assign_transfers_witness :
  ∃ B' A' s',
    move_assign Ex.mB Ex.mA Ex.sAB = Some ((B', A'), s') ∧
    data B' = Some 1%positive ∧ dev_data B' = Some 1%positive ∧
    rows B' = 2 ∧ cols B' = 2 ∧
    host s' = release (Some 2%positive) (host Ex.sAB) ∧
    dev s' = release (Some 2%positive) (dev Ex.sAB) ∧
    data A' = nullptr ∧ dev_data A' = nullptr ∧
    Matrix_destroy A' s' = Some (A', s').
Proof.
  apply (move_assign_transfers Ex.mA Ex.mB Ex.sAB).
  - intros p H. injection H as <-. eexists. reflexivity.
  - intros p H. injection H as <-. eexists. reflexivity.
Defined.

(** C9: after the move assignment [B = move(A)], [A] still has the rows
    and cols it had (only its two pointers are null), and [A.Size()] is
    what it was: the original [rows * cols], not 0. *)
Theorem move_assign_source_keeps_dims (A B : Matrix) (s : Mem) :
  owns_host s B → owns_dev s B →
  ∃ B' A' s',
    move_assign B A s = Some ((B', A'), s') ∧
    rows A' = rows A ∧ cols A' = cols A ∧
    data A' = nullptr ∧ dev_data A' = nullptr ∧
    Size A' = Size A ∧
    (dims_ok A → Size A' = rows A * cols A).
Proof.
  intros Hh Hd. eexists _, _, _. split; [by apply move_assign_run|].
  do 5 (split; [reflexivity|]).
  intros HA. apply (Size_exact A). by apply dims_ok_range.
Qed.

Lemma move_assign_source_keeps_dims_witness :
  ∃ B' A' s',
    move_assign Ex.mB Ex.mA Ex.sAB = Some ((B', A'), s') ∧
    rows A' = 2 ∧ cols A' = 2 ∧
    data A' = nullptr ∧ dev_data A' = nullptr ∧
    Size A' = 4 ∧
    (dims_ok Ex.mA → Size A' = 2 * 2).
Proof.
  apply (move_assign_source_keeps_dims Ex.mA Ex.mB Ex.sAB).
  - intros p H. injection H as <-. eexists. reflexivity.
  - intros p H. injection H as <-. eexists. reflexivity.
Defined.

(** C3: for every matrix with a populated host buffer, the row-major push
    ([IntoDevMatrix]) followed by the row-major pull ([FromDevMatrix])
    returns and leaves the host pointer, the dimensions and the whole host
    heap as they were: the host buffer holds exactly the original
    [rows * cols] values. *)
Theorem rowmajor_roundtrip (this : Matrix) (s : Mem) (vals : list double) :
  host_populated s this vals → dev_sized s this →
  ∃ this' s',
    (do m <- IntoDevMatrix this; FromDevMatrix m) s = Some (this', s') ∧
    data this' = data this ∧ rows this' = rows this ∧ cols this' = cols this ∧
    host s' = host s ∧
    host_populated s' this' vals.
Proof.
  intros Hpop Hs. pose proof Hpop as (Hd & Hlen & p & Hdata & Hp).
  destruct (IntoDevMatrix_run this s vals Hpop Hs) as (d & Hpush).
  unfold bindM. rewrite Hpush.
  rewrite (FromDevMatrix_run _ _ p d (Some <$> vals) (Some <$> vals));
    [|done|done|done|by rewrite length_fmap|done|apply lookup_insert_eq|by rewrite length_fmap].
  eexists _, _. split; [reflexivity|]. simpl.
  rewrite (insert_id _ _ _ Hp).
  do 4 (split; [reflexivity|]).
  split; [exact Hd|]. split; [exact Hlen|]. exists p. by split.
Qed.

Lemma rowmajor_roundtrip_witness :
  ∃ this' s',
    (do m <- IntoDevMatrix Ex.m23; FromDevMatrix m) Ex.s23 = Some (this', s') ∧
    data this' = data Ex.m23 ∧ rows this' = rows Ex.m23 ∧ cols this' = cols Ex.m23 ∧
    host s' = host Ex.s23 ∧
    host_populated s' this' Ex.vals23.
Proof.
  apply (rowmajor_roundtrip Ex.m23 Ex.s23 Ex.vals23).
  - split; [unfold dims_ok, Int.INT_MAX; simpl; lia|]. split; [reflexivity|].
    exists 1%positive. split; reflexivity.
  - intros d Hd. discriminate Hd.
Defined.

(** C8: for every matrix with a populated host buffer,
    [IntoDevMatrix_ColMajor] returns, the host pointer and the whole host
    heap are as before (all [rows * cols] host values unchanged), and the
    device buffer holds the matrix column major: the device element at
    offset [j * rows + i] is the host element at offset [i * cols + j], for
    all [0 <= i < rows] and [0 <= j < cols]. *)
Theorem IntoDevMatrix_ColMajor_layout (this : Matrix) (s : Mem) (vals : list double) :
  host_populated s this vals → dev_sized s this →
  ∃ this' s' d db,
    IntoDevMatrix_ColMajor this s = Some (this', s') ∧
    data this' = data this ∧ rows this' = rows this ∧ cols this' = cols this ∧
    host s' = host s ∧
    host_populated s' this' vals ∧
    dev_data this' = Some d ∧ dev s' !! d = Some db ∧
    ∀ i j, 0 <= i < rows this → 0 <= j < cols this →
           ∃ v, vals !! Z.to_nat (i * cols this + j) = Some v ∧
                db !! Z.to_nat (j * rows this + i) = Some (Some v).
Proof.
  intros Hpop Hs. pose proof Hpop as (Hd & Hlen & p & Hdata & Hp).
  destruct (IntoDevMatrix_ColMajor_run this s vals Hpop Hs) as (d & Hpush).
  eexists _, _, d, _. split; [exact Hpush|]. simpl.
  do 4 (split; [reflexivity|]).
  split; [split; [exact Hd|]; split; [exact Hlen|]; exists p; by split|].
  split; [reflexivity|]. split; [apply lookup_insert_eq|].
  intros i j Hi Hj. pose proof (index_bound _ _ _ _ Hi Hj).
  destruct (lookup_lt_is_Some_2 vals (Z.to_nat (i * cols this + j))) as [v Hv]; [lia|].
  exists v. split; [done|].
  by rewrite list_lookup_fmap, col_major_lookup, Hv.
Qed.

Lemma IntoDevMatrix_ColMajor_layout_witness :
  ∃ this' s' d db,
    IntoDevMatrix_ColMajor Ex.m23 Ex.s23 = Some (this', s') ∧
    data this' = data Ex.m23 ∧ rows this' = rows Ex.m23 ∧ cols this' = cols Ex.m23 ∧
    host s' = host Ex.s23 ∧
    host_populated s' this' Ex.vals23 ∧
    dev_data this' = Some d ∧ dev s' !! d = Some db ∧
    ∀ i j, 0 <= i < rows Ex.m23 → 0 <= j < cols Ex.m23 →
           ∃ v, Ex.vals23 !! Z.to_nat (i * cols Ex.m23 + j) = Some v ∧
                db !! Z.to_nat (j * rows Ex.m23 + i) = Some (Some v).
Proof.
  apply (IntoDevMatrix_ColMajor_layout Ex.m23 Ex.s23 Ex.vals23).
  - split; [unfold dims_ok, Int.INT_MAX; simpl; lia|]. split; [reflexivity|].
    exists 1%positive. split; reflexivity.
  - intros d Hd. discriminate Hd.
Defined.

(** C10: for every square matrix ([rows = cols]) with a populated host
    buffer, [IntoDevMatrix_ColMajor] followed by [FromDevMatrix_ColMajor]
    returns with the dimensions unchanged and the host buffer holding
    exactly its original contents. *)
Theorem colmajor_roundtrip_square (this : Matrix) (s : Mem) (vals : list double) :
  rows this = cols this →
  host_populated s this vals → dev_sized s this →
  ∃ this' s',
    (do m <- IntoDevMatrix_ColMajor this; FromDevMatrix_ColMajor m) s = Some (this', s') ∧
    rows this' = rows this ∧ cols this' = cols this ∧
    host_populated s' this' vals.
Proof.
  intros Hsq Hpop Hs. pose proof Hpop as (Hd & Hlen & _).
  destruct (colmajor_roundtrip_run this s vals Hpop Hs)
    as (this' & s' & t & Hrun & Ht & Hr & Hc & Hbuf).
  exists this', s'. split; [exact Hrun|]. split; [exact Hr|]. split; [exact Hc|].
  destruct Hd as (H0 & H1 & Hmax).
  split; [unfold dims_ok; rewrite Hr, Hc; done|].
  split; [rewrite Hr, Hc; done|].
  exists t. split; [exact Ht|].
  rewrite Hbuf, <- Hsq. rewrite col_major_square; [done|done|].
  by rewrite Hsq at 2.
Qed.

Lemma colmajor_roundtrip_square_witness :
  ∃ this' s',
    (do m <- IntoDevMatrix_ColMajor Ex.m22; FromDevMatrix_ColMajor m) Ex.s22 = Some (this', s') ∧
    rows this' = rows Ex.m22 ∧ cols this' = cols Ex.m22 ∧
    host_populated s' this' Ex.vals22.
Proof.
  apply (colmajor_roundtrip_square Ex.m22 Ex.s22 Ex.vals22).
  - reflexivity.
  - split; [unfold dims_ok, Int.INT_MAX; simpl; lia|]. split; [reflexivity|].
    exists 1%positive. split; reflexivity.
  - intros d Hd. discriminate Hd.
Defined.

(** C1: the column-major push followed by the column-major pull, run on
    the populated 2 x 3 matrix [[1,2,3],[4,5,6]]: the host buffer ends up
    holding 1,5,4,3,2,6, which is not what it held. *)
Theorem colmajor_roundtrip_2x3 :
  host_populated Ex.s23 Ex.m23 Ex.vals23 ∧
  rows Ex.m23 = 2 ∧ cols Ex.m23 = 3 ∧
  ∃ this' s' t,
    (do m <- IntoDevMatrix_ColMajor Ex.m23; FromDevMatrix_ColMajor m) Ex.s23 = Some (this', s') ∧
    data this' = Some t ∧
    host s' !! t = Some (Some <$> Ex.back23) ∧
    Ex.back23 ≠ Ex.vals23.
Proof.
  split; [exact m23_populated|]. split; [reflexivity|]. split; [reflexivity|].
  destruct (colmajor_roundtrip_run Ex.m23 Ex.s23 Ex.vals23 m23_populated m23_dev_sized)
    as (this' & s' & t & Hrun & Ht & _ & _ & Hbuf).
  exists this', s', t. split; [exact Hrun|]. split; [exact Ht|].
  split; [rewrite Hbuf; reflexivity|].
  intros H. discriminate H.
Qed.

(** C4 (as the code has it): for two matrices with populated host buffers,
    [IsDeltaEqual] returns false whenever they differ in rows or cols;
    otherwise it returns, and it returns true if and only if no index [k]
    in [0, rows * cols) has [|A.data[k] - B.data[k]| > delta].  When
    [delta] and all the differences are numbers (not NaN) this is the same
    as every index having [|A.data[k] - B.data[k]| <= delta]. *)
Theorem IsDeltaEqual_spec (A B : Matrix) (s : Mem) (va vb : list double) (delta : double) :
  host_populated s A va → host_populated s B vb →
  (cols A ≠ cols B ∨ rows A ≠ rows B → IsDeltaEqual A B delta s = Some (false, s)) ∧
  (cols A = cols B → rows A = rows B →
   ∃ b, IsDeltaEqual A B delta s = Some (b, s) ∧
        (b = true ↔
         ∀ (k : nat) (x y : double),
           va !! k = Some x → vb !! k = Some y →
           Double.gt (Double.abs (Double.sub x y)) delta = false) ∧
        (Double.is_nan delta = false →
         (∀ (k : nat) (x y : double),
            va !! k = Some x → vb !! k = Some y →
            Double.is_nan (Double.sub x y) = false) →
         (b = true ↔
          ∀ (k : nat) (x y : double),
            va !! k = Some x → vb !! k = Some y →
            Double.le (Double.abs (Double.sub x y)) delta = true))).
Proof.
  intros HA HB. split; [apply IsDeltaEqual_mismatch|].
  intros Hc Hr.
  destruct (IsDeltaEqual_run A B s va vb delta HA HB Hc Hr) as (b & Hrun & Hb).
  exists b. split; [exact Hrun|]. split; [exact Hb|].
  intros Hdelta Hnum. rewrite Hb. split.
  - intros Hall k x y Hx Hy. apply not_gt_le; [|done|by apply (Hall k)].
    rewrite abs_is_nan. by apply (Hnum k).
  - intros Hall k x y Hx Hy. apply not_gt_le; [|done|by apply (Hall k)].
    rewrite abs_is_nan. by apply (Hnum k).
Qed.

Lemma IsDeltaEqual_spec_witness :
  ∃ b, IsDeltaEqual Ex.m22 Ex.m22 Double.lit_1e_3 Ex.s22 = Some (b, Ex.s22) ∧
       (b = true ↔
        ∀ (k : nat) (x y : double),
          Ex.vals22 !! k = Some x → Ex.vals22 !! k = Some y →
          Double.gt (Double.abs (Double.sub x y)) Double.lit_1e_3 = false).
Proof.
  destruct (IsDeltaEqual_spec Ex.m22 Ex.m22 Ex.s22 Ex.vals22 Ex.vals22 Double.lit_1e_3)
    as [_ H].
  - split; [unfold dims_ok, Int.INT_MAX; simpl; lia|]. split; [reflexivity|].
    exists 1%positive. split; reflexivity.
  - split; [unfold dims_ok, Int.INT_MAX; simpl; lia|]. split; [reflexivity|].
    exists 1%positive. split; reflexivity.
  - destruct (H eq_refl eq_refl) as (b & Hrun & Hb & _).
    exists b. split; [exact Hrun|exact Hb].
Defined.

(** C4, where it fails: of two populated 1 x 1 matrices with equal
    dimensions, one holds NaN and the other 0; [IsDeltaEqual] with the
    default tolerance returns true, although [|NaN - 0| <= 1e-3] is
    false. *)
Lemma IsDeltaEqual_accepts_nan :
  host_populated Ex.sNaN Ex.mNaN [Double.nan] ∧
  host_populated Ex.sNaN Ex.mZero [Double.zero] ∧
  rows Ex.mNaN = rows Ex.mZero ∧ cols Ex.mNaN = cols Ex.mZero ∧
  IsDeltaEqual Ex.mNaN Ex.mZero Double.lit_1e_3 Ex.sNaN = Some (true, Ex.sNaN) ∧
  Double.le (Double.abs (Double.sub Double.nan Double.zero)) Double.lit_1e_3 = false.
Proof.
  split; [exact mNaN_populated|]. split; [exact mZero_populated|].
  repeat split.
Qed.

(** C5: [IsDeltaEqual] is reflexive: for every matrix [A] with a populated
    host buffer, [A.IsDeltaEqual(A, delta)] returns true for every
    [delta >= 0], and so for the default tolerance [1e-3]. *)
Theorem IsDeltaEqual_refl (A : Matrix) (s : Mem) (vals : list double) :
  host_populated s A vals →
  (∀ delta, Double.le Double.zero delta = true →
            IsDeltaEqual A A delta s = Some (true, s)) ∧
  IsDeltaEqual_default A A s = Some (true, s).
Proof.
  intros HA.
  assert (∀ delta, Double.le Double.zero delta = true →
                   IsDeltaEqual A A delta s = Some (true, s)) as Hrefl.
  { intros delta Hdelta.
    destruct (IsDeltaEqual_run A A s vals vals delta HA HA eq_refl eq_refl)
      as (b & Hrun & Hb).
    rewrite Hrun. replace b with true; [done|]. symmetry. apply Hb.
    intros k x y Hx Hy. replace y with x by congruence.
    by apply gt_abs_sub_self. }
  split; [exact Hrefl|]. by apply Hrefl.
Qed.

Lemma IsDeltaEqual_refl_witness :
  IsDeltaEqual Ex.m23 Ex.m23 Double.zero Ex.s23 = Some (true, Ex.s23) ∧
  IsDeltaEqual_default Ex.m23 Ex.m23 Ex.s23 = Some (true, Ex.s23).
Proof.
  destruct (IsDeltaEqual_refl Ex.m23 Ex.s23 Ex.vals23) as [H0 Hd].
  - split; [unfold dims_ok, Int.INT_MAX; simpl; lia|]. split; [reflexivity|].
    exists 1%positive. split; reflexivity.
  - split; [apply H0; reflexivity|exact Hd].
Defined.

(** * Further properties of the code *)

(** ** Exact heaps after the transfers *)

Lemma ensure_dev_exact (this : Matrix) (s : Mem) :
  dims_ok this → dev_sized s this →
  ∃ d db,
    (match dev_data this with
     | None => AllocDevice this
     | Some _ => retM this
     end) s = Some (set_dev_data (Some d) this, mkMem (host s) (<[d := db]> (dev s))) ∧
    Z.of_nat (length db) = rows this * cols this ∧
    (∀ x, delete d (<[d := x]> (dev s)) = release (dev_data this) (dev s)) ∧
    (∀ d0, dev_data this = Some d0 → d = d0).
Proof.
  intros Hd Hs. destruct (dims_ok_range _ Hd) as [_ H0].
  destruct this as [p [d|] r c], s as [h dv]; simpl in *.
  - destruct (Hs d eq_refl) as (db & Hdb & Hlen). exists d, db.
    split; [unfold retM, set_dev_data; simpl; by rewrite (insert_id _ _ _ Hdb)|].
    split; [done|]. split; [intros x; apply delete_insert_eq|congruence].
  - exists (fresh (dom dv)), (replicate (Z.to_nat (r * c)) None).
    split.
    { unfold AllocDevice, bindM, FreeDevice, retM, Runtime.cudaMalloc. simpl.
      by rewrite (elems_Size (mkMatrix p None r c) Hd). }
    split; [rewrite length_replicate; lia|].
    split; [|done]. intros x. apply delete_insert_id, not_elem_of_dom, is_fresh.
Qed.

Lemma ensure_host_exact (this : Matrix) (s : Mem) :
  dims_ok this → host_sized s this →
  ∃ p hb,
    (match data this with
     | None => AllocHost this
     | Some _ => retM this
     end) s = Some (set_data (Some p) this, mkMem (<[p := hb]> (host s)) (dev s)) ∧
    Z.of_nat (length hb) = rows this * cols this ∧
    (∀ x, delete p (<[p := x]> (host s)) = release (data this) (host s)) ∧
    (∀ p0, data this = Some p0 → p = p0).
Proof.
  intros Hd Hs. destruct (dims_ok_range _ Hd) as [_ H0].
  destruct this as [[p|] d r c], s as [h dv]; simpl in *.
  - destruct (Hs p eq_refl) as (hb & Hhb & Hlen). exists p, hb.
    split; [unfold retM, set_data; simpl; by rewrite (insert_id _ _ _ Hhb)|].
    split; [done|]. split; [intros x; apply delete_insert_eq|congruence].
  - exists (fresh (dom h)), (replicate (Z.to_nat (r * c)) None).
    split.
    { unfold AllocHost, bindM, FreeHost, retM, Runtime.malloc. simpl.
      by rewrite (elems_Size (mkMatrix None d r c) Hd). }
    split; [rewrite length_replicate; lia|].
    split; [|done]. intros x. apply delete_insert_id, not_elem_of_dom, is_fresh.
Qed.

Lemma IntoDevMatrix_exact (this : Matrix) (s : Mem) (vals : list double) :
  host_populated s this vals → dev_sized s this →
  ∃ d, IntoDevMatrix this s =
         Some (set_dev_data (Some d) this,
               mkMem (host s) (<[d := Some <$> vals]> (dev s))) ∧
       (∀ x, delete d (<[d := x]> (dev s)) = release (dev_data this) (dev s)) ∧
       (∀ d0, dev_data this = Some d0 → d = d0).
Proof.
  intros (Hd & Hlen & p & Hdata & Hp) Hs.
  destruct (dims_ok_range _ Hd) as [_ H0].
  destruct (ensure_dev_exact this s Hd Hs) as (d & db & Hrun & Hdb & Hdel & Hsame).
  exists d. split; [|done].
  unfold IntoDevMatrix, bindM at 1. rewrite Hrun.
  unfold bindM, Runtime.cudaMemcpyHostToDevice, retM. simpl.
  rewrite Hdata, lookup_insert_eq, Hp.
  replace (Size (set_dev_data (Some d) this)) with (Size this) by done.
  rewrite (elems_Size _ Hd).
  rewrite blit_full by (rewrite ?length_fmap; lia).
  by rewrite insert_insert_eq.
Qed.

Lemma IntoDevMatrix_ColMajor_exact (this : Matrix) (s : Mem) (vals : list double) :
  host_populated s this vals → dev_sized s this →
  ∃ d, IntoDevMatrix_ColMajor this s =
         Some (set_dev_data (Some d) this,
               mkMem (host s)
                     (<[d := Some <$> col_major (rows this) (cols this) vals]> (dev s))) ∧
       (∀ x, delete d (<[d := x]> (dev s)) = release (dev_data this) (dev s)) ∧
       (∀ d0, dev_data this = Some d0 → d = d0).
Proof.
  intros Hpop Hs. pose proof Hpop as (Hd & Hlen & p & Hdata & Hp).
  destruct (dims_ok_range _ Hd) as [_ H0].
  destruct (ensure_dev_exact this s Hd Hs) as (d & db & Hrun & Hdb & Hdel & Hsame).
  exists d. split; [|done].
  unfold IntoDevMatrix_ColMajor, bindM at 1. rewrite Hrun.
  unfold bindM at 1.
  rewrite (Transposed_run _ _ vals).
  2:{ split; [exact Hd|]. split; [exact Hlen|]. exists p. split; [exact Hdata|exact Hp]. }
  simpl. pose proof (fresh_host_None s) as Hfresh.
  set (t := fresh (dom (host s))) in *.
  unfold bindM, Runtime.cudaMemcpyHostToDevice, Runtime.free, retM. simpl.
  rewrite !lookup_insert_eq.
  replace (Size (set_dev_data (Some d) this)) with (Size this) by done.
  rewrite (elems_Size _ Hd).
  rewrite blit_full.
  - simpl. rewrite lookup_insert_eq. by rewrite insert_insert_eq, delete_insert_id.
  - rewrite length_fmap. pose proof (col_major_length (rows this) (cols this) vals). lia.
  - lia.
Qed.

Lemma FromDevMatrix_exact (this : Matrix) (s : Mem) (d : positive) (db : buffer) :
  dims_ok this → host_sized s this →
  dev_data this = Some d → dev s !! d = Some db →
  Z.of_nat (length db) = rows this * cols this →
  ∃ p, FromDevMatrix this s =
         Some (set_data (Some p) this, mkMem (<[p := db]> (host s)) (dev s)) ∧
       (∀ x, delete p (<[p := x]> (host s)) = release (data this) (host s)) ∧
       (∀ p0, data this = Some p0 → p = p0).
Proof.
  intros Hd Hs Hdev Hdv Hdb.
  destruct (dims_ok_range _ Hd) as [_ H0].
  destruct (ensure_host_exact this s Hd Hs) as (p & hb & Hrun & Hhb & Hdel & Hsame).
  exists p. split; [|done].
  unfold FromDevMatrix, bindM at 1. rewrite Hrun.
  unfold bindM, Runtime.cudaMemcpyDeviceToHost, retM. simpl.
  rewrite Hdev, lookup_insert_eq, Hdv.
  replace (Size (set_data (Some p) this)) with (Size this) by done.
  rewrite (elems_Size _ Hd).
  rewrite blit_full by lia.
  by rewrite insert_insert_eq.
Qed.

Lemma FromDevMatrix_ColMajor_exact (this : Matrix) (s : Mem) (d : positive)
    (dvals : list double) :
  dims_ok this → host_sized s this →
  dev_data this = Some d → dev s !! d = Some (Some <$> dvals) →
  Z.of_nat (length dvals) = rows this * cols this →
  ∃ t, FromDevMatrix_ColMajor this s =
         Some (set_data (Some t) this,
               mkMem (<[t := Some <$> col_major (rows this) (cols this) dvals]>
                        (release (data this) (host s)))
                     (dev s)) ∧
       release (data this) (host s) !! t = None.
Proof.
  intros Hd Hs Hdev Hdv Hdb.
  destruct (dims_ok_range _ Hd) as [_ H0].
  destruct (ensure_host_exact this s Hd Hs) as (p & hb & Hrun & Hhb & Hdel & Hsame).
  unfold FromDevMatrix_ColMajor, bindM at 1. rewrite Hrun.
  unfold bindM at 1, Runtime.cudaMemcpyDeviceToHost. simpl.
  rewrite Hdev, lookup_insert_eq, Hdv.
  replace (Size (set_data (Some p) this)) with (Size this) by done.
  rewrite (elems_Size _ Hd).
  rewrite blit_full by (rewrite ?length_fmap; lia).
  rewrite insert_insert_eq.
  set (s1 := mkMem (<[p := Some <$> dvals]> (host s)) (dev s)).
  unfold bindM at 1.
  rewrite (Transposed_run (set_data (Some p) this) s1 dvals).
  2:{ split; [exact Hd|]. split; [exact Hdb|]. exists p. split; [done|]. apply lookup_insert_eq. }
  pose proof (fresh_host_None s1) as Hfresh.
  set (t := fresh (dom (host s1))) in *.
  assert (t ≠ p) as Htp.
  { intros ->. simpl in Hfresh. by rewrite lookup_insert_eq in Hfresh. }
  exists t. unfold bindM, Runtime.free, retM. simpl.
  rewrite lookup_insert_ne by done. rewrite lookup_insert_eq.
  rewrite delete_insert_ne by done. rewrite Hdel.
  split; [done|].
  rewrite <- (Hdel (Some <$> dvals)). by rewrite lookup_delete_ne.
Qed.

(** Hypotheses about concrete matrices, settled by evaluation. *)
Ltac concrete_populated :=
  split; [unfold dims_ok, Int.INT_MAX; simpl; lia|];
  split; [reflexivity|]; eexists; split; reflexivity.
Ltac concrete_dims := unfold dims_ok, Int.INT_MAX; simpl; lia.
Ltac concrete_block :=
  let p := fresh "p" in let H := fresh "H" in
  intros p H; first [discriminate H | injection H as <-; eexists; split; reflexivity
                                    | injection H as <-; eexists; reflexivity].

Lemma col_major_vector (r c : Z) (vals : list double) :
  r = 1 ∨ c = 1 → 0 <= r → 0 <= c →
  Z.of_nat (length vals) = r * c →
  col_major r c vals = vals.
Proof.
  intros Hv Hr Hc Hlen. apply list_eq. intros k.
  pose proof (col_major_length r c vals ltac:(nia)) as Hl.
  destruct (decide (Z.of_nat k < r * c)) as [Hk|Hk].
  - destruct (index_split r c k Hr Hk) as (Hi & Hj & Ek).
    set (i := Z.of_nat k mod r) in *. set (j := Z.of_nat k / r) in *.
    replace k with (Z.to_nat (j * r + i)) at 1 by lia.
    rewrite col_major_lookup by done.
    f_equal. destruct Hv as [-> | ->]; lia.
  - rewrite !lookup_ge_None_2; [done|lia..].
Qed.

(** Transposing with the dimensions swapped undoes the transposition. *)
Lemma col_major_swapped (r c : Z) (vals : list double) :
  0 <= r → 0 <= c → Z.of_nat (length vals) = r * c →
  col_major c r (col_major r c vals) = vals.
Proof.
  intros Hr Hc Hlen. apply list_eq. intros k.
  pose proof (col_major_length r c vals ltac:(nia)) as Hl1.
  pose proof (col_major_length c r (col_major r c vals) ltac:(nia)) as Hl2.
  destruct (decide (Z.of_nat k < c * r)) as [Hk|Hk].
  - destruct (index_split c r k Hc Hk) as (Hj & Hi & Ek).
    set (j := Z.of_nat k mod c) in *. set (i := Z.of_nat k / c) in *.
    replace k with (Z.to_nat (i * c + j)) by lia.
    rewrite col_major_lookup by (done || lia).
    by rewrite col_major_lookup.
  - rewrite !lookup_ge_None_2; [done|lia..].
Qed.

Lemma Matrix_destroy_run (this : Matrix) (s : Mem) :
  owns_host s this → owns_dev s this →
  Matrix_destroy this s =
    Some (mkMatrix nullptr nullptr (rows this) (cols this),
          mkMem (release (data this) (host s)) (release (dev_data this) (dev s))).
Proof.
  intros Hh Hd. unfold Matrix_destroy, bindM. rewrite (FreeHost_run _ _ Hh).
  rewrite FreeDevice_run; [done|]. intros d Hd'. by apply Hd.
Qed.

(** ** Transfers: the pulls *)

(** X1: [FromDevMatrix_ColMajor], on a matrix whose device buffer holds
    [rows * cols] initialised values, returns; the device heap and the
    device pointer are as before; the old host block, if any, is released
    and the host pointer is a block that was not live, in which offset
    [j * rows + i] holds the device element of offset [i * cols + j]: the
    index map of the push, not its inverse. *)
Theorem FromDevMatrix_ColMajor_layout (this : Matrix) (s : Mem) (d : positive)
    (dvals : list double) :
  dims_ok this → host_sized s this →
  dev_data this = Some d → dev s !! d = Some (Some <$> dvals) →
  Z.of_nat (length dvals) = rows this * cols this →
  ∃ this' s' t hb,
    FromDevMatrix_ColMajor this s = Some (this', s') ∧
    data this' = Some t ∧ dev_data this' = Some d ∧
    rows this' = rows this ∧ cols this' = cols this ∧
    dev s' = dev s ∧
    host s' = <[t := hb]> (release (data this) (host s)) ∧
    release (data this) (host s) !! t = None ∧
    ∀ i j, 0 <= i < rows this → 0 <= j < cols this →
           ∃ v, dvals !! Z.to_nat (i * cols this + j) = Some v ∧
                hb !! Z.to_nat (j * rows this + i) = Some (Some v).
Proof.
  intros Hd Hs Hdev Hdv Hlen.
  destruct (FromDevMatrix_ColMajor_exact this s d dvals Hd Hs Hdev Hdv Hlen)
    as (t & Hrun & Ht).
  eexists _, _, t, _. split; [exact Hrun|]. simpl.
  split; [reflexivity|]. split; [exact Hdev|].
  do 4 (split; [reflexivity|]). split; [exact Ht|].
  intros i j Hi Hj. pose proof (index_bound _ _ _ _ Hi Hj).
  destruct (lookup_lt_is_Some_2 dvals (Z.to_nat (i * cols this + j))) as [v Hv]; [lia|].
  exists v. split; [done|].
  by rewrite list_lookup_fmap, col_major_lookup, Hv.
Qed.

Lemma FromDevMatrix_ColMajor_layout_witness :
  ∃ this' s' t hb,
    FromDevMatrix_ColMajor Ex.mD Ex.sD = Some (this', s') ∧
    data this' = Some t ∧ dev_data this' = Some 1%positive ∧
    rows this' = rows Ex.mD ∧ cols this' = cols Ex.mD ∧
    dev s' = dev Ex.sD ∧
    host s' = <[t := hb]> (release (data Ex.mD) (host Ex.sD)) ∧
    release (data Ex.mD) (host Ex.sD) !! t = None ∧
    ∀ i j, 0 <= i < rows Ex.mD → 0 <= j < cols Ex.mD →
           ∃ v, Ex.vals23 !! Z.to_nat (i * cols Ex.mD + j) = Some v ∧
                hb !! Z.to_nat (j * rows Ex.mD + i) = Some (Some v).
Proof.
  apply (FromDevMatrix_ColMajor_layout Ex.mD Ex.sD 1%positive Ex.vals23);
    [concrete_dims|concrete_block|reflexivity|reflexivity|reflexivity].
Defined.

(** X2: [FromDevMatrix], on a matrix whose device buffer is a live block
    of [rows * cols] cells, returns with the host buffer holding a verbatim
    copy of the device buffer.  A matrix that has a host buffer keeps its
    host pointer; one that has none gets a block that was not live.  Every
    other host block and the whole device heap are untouched. *)
Theorem FromDevMatrix_copies (this : Matrix) (s : Mem) (d : positive) (db : buffer) :
  dims_ok this → host_sized s this →
  dev_data this = Some d → dev s !! d = Some db →
  Z.of_nat (length db) = rows this * cols this →
  ∃ this' s' p,
    FromDevMatrix this s = Some (this', s') ∧
    data this' = Some p ∧ dev_data this' = Some d ∧
    rows this' = rows this ∧ cols this' = cols this ∧
    host s' !! p = Some db ∧
    (∀ q, q ≠ p → host s' !! q = host s !! q) ∧
    dev s' = dev s ∧
    (∀ p0, data this = Some p0 → p = p0) ∧
    (data this = nullptr → host s !! p = None).
Proof.
  intros Hd Hs Hdev Hdv Hlen.
  destruct (FromDevMatrix_exact this s d db Hd Hs Hdev Hdv Hlen)
    as (p & Hrun & Hdel & Hsame).
  eexists _, _, p. split; [exact Hrun|]. simpl.
  split; [reflexivity|]. split; [exact Hdev|].
  do 2 (split; [reflexivity|]).
  split; [apply lookup_insert_eq|].
  split; [intros q Hq; by apply lookup_insert_ne|].
  split; [reflexivity|]. split; [exact Hsame|].
  intros Hnull. specialize (Hdel db). rewrite Hnull in Hdel. simpl in Hdel.
  rewrite <- Hdel. apply lookup_delete_eq.
Qed.

Lemma FromDevMatrix_copies_witness :
  ∃ this' s' p,
    FromDevMatrix Ex.mD0 Ex.sD0 = Some (this', s') ∧
    data this' = Some p ∧ dev_data this' = Some 1%positive ∧
    rows this' = rows Ex.mD0 ∧ cols this' = cols Ex.mD0 ∧
    host s' !! p = Some (Some <$> Ex.vals23) ∧
    (∀ q, q ≠ p → host s' !! q = host Ex.sD0 !! q) ∧
    dev s' = dev Ex.sD0 ∧
    (∀ p0, data Ex.mD0 = Some p0 → p = p0) ∧
    (data Ex.mD0 = nullptr → host Ex.sD0 !! p = None).
Proof.
  apply (FromDevMatrix_copies Ex.mD0 Ex.sD0 1%positive (Some <$> Ex.vals23));
    [concrete_dims|concrete_block|reflexivity|reflexivity|reflexivity].
Defined.

(** X3: the round trip in the other direction: on a matrix whose device
    buffer holds [rows * cols] initialised values, [FromDevMatrix] followed
    by [IntoDevMatrix] returns and leaves the device pointer and the whole
    device heap as they were, and the host buffer holds the device
    values. *)
Theorem pull_push_roundtrip (this : Matrix) (s : Mem) (d : positive)
    (dvals : list double) :
  dims_ok this → host_sized s this →
  dev_data this = Some d → dev s !! d = Some (Some <$> dvals) →
  Z.of_nat (length dvals) = rows this * cols this →
  ∃ this' s',
    (do m <- FromDevMatrix this; IntoDevMatrix m) s = Some (this', s') ∧
    dev_data this' = Some d ∧ dev s' = dev s ∧
    host_populated s' this' dvals.
Proof.
  intros Hd Hs Hdev Hdv Hlen.
  destruct (FromDevMatrix_exact this s d (Some <$> dvals) Hd Hs Hdev Hdv)
    as (p & Hpull & _ & _); [by rewrite length_fmap|].
  set (m := set_data (Some p) this) in *.
  set (s1 := mkMem (<[p := Some <$> dvals]> (host s)) (dev s)) in *.
  assert (host_populated s1 m dvals) as Hpop.
  { split; [exact Hd|]. split; [exact Hlen|]. exists p. split; [done|apply lookup_insert_eq]. }
  assert (dev_sized s1 m) as Hsz.
  { intros d' Hd'. simpl in Hd'. rewrite Hdev in Hd'. injection Hd' as <-.
    eexists. split; [exact Hdv|]. by rewrite length_fmap. }
  destruct (IntoDevMatrix_exact m s1 dvals Hpop Hsz) as (d' & Hpush & _ & Hsame).
  assert (d' = d) as -> by (by apply Hsame).
  unfold bindM. rewrite Hpull, Hpush.
  eexists _, _. split; [reflexivity|]. simpl.
  split; [reflexivity|]. split; [by apply insert_id|].
  split; [exact Hd|]. split; [exact Hlen|]. exists p. split; [done|apply lookup_insert_eq].
Qed.

Lemma pull_push_roundtrip_witness :
  ∃ this' s',
    (do m <- FromDevMatrix Ex.mD0; IntoDevMatrix m) Ex.sD0 = Some (this', s') ∧
    dev_data this' = Some 1%positive ∧ dev s' = dev Ex.sD0 ∧
    host_populated s' this' Ex.vals23.
Proof.
  apply (pull_push_roundtrip Ex.mD0 Ex.sD0 1%positive Ex.vals23);
    [concrete_dims|concrete_block|reflexivity|reflexivity|reflexivity].
Defined.

(** ** Transfers: composing pushes and pulls *)



(** X5: mixing the variants transposes the host data in place: the
    row-major push followed by the column-major pull, and the column-major
    push followed by the row-major pull, both return with the host buffer
    holding the column-major listing of the original contents, under
    unchanged [rows] and [cols]. *)
Theorem mixed_roundtrips_transpose (this : Matrix) (s : Mem) (vals : list double) :
  host_populated s this vals → dev_sized s this →
  (∃ this' s' t,
     (do m <- IntoDevMatrix this; FromDevMatrix_ColMajor m) s = Some (this', s') ∧
     rows this' = rows this ∧ cols this' = cols this ∧
     data this' = Some t ∧
     host s' !! t = Some (Some <$> col_major (rows this) (cols this) vals)) ∧
  (∃ this' s' t,
     (do m <- IntoDevMatrix_ColMajor this; FromDevMatrix m) s = Some (this', s') ∧
     rows this' = rows this ∧ cols this' = cols this ∧
     data this' = Some t ∧
     host s' !! t = Some (Some <$> col_major (rows this) (cols this) vals)).
Proof.
  intros Hpop Hs. pose proof Hpop as (Hd & Hlen & p & Hdata & Hp).
  destruct (dims_ok_range _ Hd) as [_ H0].
  assert (∀ d x, host_sized (mkMem (host s) x) (set_dev_data (Some d) this)) as Hhs.
  { intros d x q Hq. simpl in Hq. rewrite Hdata in Hq. injection Hq as <-.
    eexists. split; [exact Hp|]. by rewrite length_fmap. }
  split.
  - destruct (IntoDevMatrix_exact this s vals Hpop Hs) as (d & Hpush & _ & _).
    destruct (FromDevMatrix_ColMajor_exact (set_dev_data (Some d) this)
                (mkMem (host s) (<[d := Some <$> vals]> (dev s))) d vals)
      as (t & Hpull & _); [done|apply Hhs|done|apply lookup_insert_eq|done|].
    unfold bindM. rewrite Hpush, Hpull.
    eexists _, _, t. split; [reflexivity|]. simpl.
    do 3 (split; [reflexivity|]). apply lookup_insert_eq.
  - destruct (IntoDevMatrix_ColMajor_exact this s vals Hpop Hs) as (d & Hpush & _ & _).
    destruct (FromDevMatrix_exact (set_dev_data (Some d) this)
                (mkMem (host s)
                       (<[d := Some <$> col_major (rows this) (cols this) vals]> (dev s)))
                d (Some <$> col_major (rows this) (cols this) vals))
      as (t & Hpull & _); [done|apply Hhs|done|apply lookup_insert_eq| |].
    { rewrite length_fmap. by apply col_major_length. }
    unfold bindM. rewrite Hpush, Hpull.
    eexists _, _, t. split; [reflexivity|]. simpl.
    do 3 (split; [reflexivity|]). apply lookup_insert_eq.
Qed.

Lemma mixed_roundtrips_transpose_witness :
  (∃ this' s' t,
     (do m <- IntoDevMatrix Ex.m23; FromDevMatrix_ColMajor m) Ex.s23 = Some (this', s') ∧
     rows this' = rows Ex.m23 ∧ cols this' = cols Ex.m23 ∧
     data this' = Some t ∧
     host s' !! t = Some (Some <$> col_major (rows Ex.m23) (cols Ex.m23) Ex.vals23)) ∧
  (∃ this' s' t,
     (do m <- IntoDevMatrix_ColMajor Ex.m23; FromDevMatrix m) Ex.s23 = Some (this', s') ∧
     rows this' = rows Ex.m23 ∧ cols this' = cols Ex.m23 ∧
     data this' = Some t ∧
     host s' !! t = Some (Some <$> col_major (rows Ex.m23) (cols Ex.m23) Ex.vals23)).
Proof.
  apply (mixed_roundtrips_transpose Ex.m23 Ex.s23 Ex.vals23);
    [concrete_populated|concrete_block].
Defined.

(** X6: for a row vector or a column vector ([rows = 1] or [cols = 1])
    with a populated host buffer, the column-major push followed by the
    column-major pull does restore the host contents. *)
Theorem colmajor_roundtrip_vector (this : Matrix) (s : Mem) (vals : list double) :
  rows this = 1 ∨ cols this = 1 →
  host_populated s this vals → dev_sized s this →
  ∃ this' s',
    (do m <- IntoDevMatrix_ColMajor this; FromDevMatrix_ColMajor m) s = Some (this', s') ∧
    rows this' = rows this ∧ cols this' = cols this ∧
    host_populated s' this' vals.
Proof.
  intros Hv Hpop Hs. pose proof Hpop as (Hd & Hlen & _).
  destruct (colmajor_roundtrip_run this s vals Hpop Hs)
    as (this' & s' & t & Hrun & Ht & Hr & Hc & Hbuf).
  exists this', s'. split; [exact Hrun|]. split; [exact Hr|]. split; [exact Hc|].
  pose proof Hd as (H0 & H1 & Hmax).
  split; [unfold dims_ok; rewrite Hr, Hc; done|].
  split; [rewrite Hr, Hc; done|].
  exists t. split; [exact Ht|].
  rewrite Hbuf, (col_major_vector _ _ vals) by done.
  by rewrite col_major_vector.
Qed.

Lemma colmajor_roundtrip_vector_witness :
  ∃ this' s',
    (do m <- IntoDevMatrix_ColMajor Ex.m13; FromDevMatrix_ColMajor m) Ex.s13 = Some (this', s') ∧
    rows this' = rows Ex.m13 ∧ cols this' = cols Ex.m13 ∧
    host_populated s' this' Ex.vals13.
Proof.
  apply (colmajor_roundtrip_vector Ex.m13 Ex.s13 Ex.vals13);
    [left; reflexivity|concrete_populated|concrete_block].
Defined.

(** X7: nothing is left behind.  A push, a pull and the destructor, run on
    a matrix with a populated host buffer, return with both pointers null
    and with the heaps being the heaps before the push less the blocks the
    matrix owned then: the device buffer, the transposed temporaries and
    the replaced host buffer have all been released.  This holds for the
    row-major pair and for the column-major pair. *)
Theorem transfers_leave_no_block (this : Matrix) (s : Mem) (vals : list double) :
  host_populated s this vals → dev_sized s this →
  (do m <- IntoDevMatrix this; do m <- FromDevMatrix m; Matrix_destroy m) s =
    Some (mkMatrix nullptr nullptr (rows this) (cols this),
          mkMem (release (data this) (host s)) (release (dev_data this) (dev s))) ∧
  (do m <- IntoDevMatrix_ColMajor this; do m <- FromDevMatrix_ColMajor m; Matrix_destroy m) s =
    Some (mkMatrix nullptr nullptr (rows this) (cols this),
          mkMem (release (data this) (host s)) (release (dev_data this) (dev s))).
Proof.
  intros Hpop Hs. pose proof Hpop as (Hd & Hlen & p & Hdata & Hp).
  destruct (dims_ok_range _ Hd) as [_ H0].
  assert (∀ d x, host_sized (mkMem (host s) x) (set_dev_data (Some d) this)) as Hhs.
  { intros d x q Hq. simpl in Hq. rewrite Hdata in Hq. injection Hq as <-.
    eexists. split; [exact Hp|]. by rewrite length_fmap. }
  split.
  - destruct (IntoDevMatrix_exact this s vals Hpop Hs) as (d & Hpush & Hdel & _).
    destruct (FromDevMatrix_exact (set_dev_data (Some d) this)
                (mkMem (host s) (<[d := Some <$> vals]> (dev s))) d (Some <$> vals))
      as (q & Hpull & _ & Hsame); [done|apply Hhs|done|apply lookup_insert_eq| |].
    { by rewrite length_fmap. }
    assert (q = p) as -> by (by apply Hsame).
    unfold bindM. rewrite Hpush, Hpull.
    rewrite Matrix_destroy_run.
    + simpl. by rewrite delete_insert_eq, Hdel, Hdata.
    + intros ? [= <-]. simpl. rewrite lookup_insert_eq. by eexists.
    + intros ? [= <-]. simpl. rewrite lookup_insert_eq. by eexists.
  - destruct (IntoDevMatrix_ColMajor_exact this s vals Hpop Hs) as (d & Hpush & Hdel & _).
    destruct (FromDevMatrix_ColMajor_exact (set_dev_data (Some d) this)
                (mkMem (host s)
                       (<[d := Some <$> col_major (rows this) (cols this) vals]> (dev s)))
                d (col_major (rows this) (cols this) vals))
      as (t & Hpull & Ht); [done|apply Hhs|done|apply lookup_insert_eq| |].
    { by apply col_major_length. }
    unfold bindM. rewrite Hpush, Hpull.
    rewrite Matrix_destroy_run.
    + simpl in *. by rewrite (delete_insert_id _ _ _ Ht), Hdel.
    + intros ? [= <-]. simpl. rewrite lookup_insert_eq. by eexists.
    + intros ? [= <-]. simpl. rewrite lookup_insert_eq. by eexists.
Qed.

Lemma transfers_leave_no_block_witness :
  (do m <- IntoDevMatrix Ex.m23; do m <- FromDevMatrix m; Matrix_destroy m) Ex.s23 =
    Some (mkMatrix nullptr nullptr (rows Ex.m23) (cols Ex.m23),
          mkMem (release (data Ex.m23) (host Ex.s23))
                (release (dev_data Ex.m23) (dev Ex.s23))) ∧
  (do m <- IntoDevMatrix_ColMajor Ex.m23; do m <- FromDevMatrix_ColMajor m;
   Matrix_destroy m) Ex.s23 =
    Some (mkMatrix nullptr nullptr (rows Ex.m23) (cols Ex.m23),
          mkMem (release (data Ex.m23) (host Ex.s23))
                (release (dev_data Ex.m23) (dev Ex.s23))).
Proof.
  apply (transfers_leave_no_block Ex.m23 Ex.s23 Ex.vals23);
    [concrete_populated|concrete_block].
Defined.

(** ** Ownership: allocation, destruction, moves *)

Lemma AllocHost_exact (this : Matrix) (s : Mem) :
  owns_host s this →
  AllocHost this s =
    Some (set_data (Some (fresh (dom (release (data this) (host s))))) this,
          mkMem (<[fresh (dom (release (data this) (host s))) :=
                     replicate (Runtime.elems (Int.bytes_of (Size this))) None]>
                   (release (data this) (host s)))
                (dev s)).
Proof.
  intros Ho. unfold AllocHost, bindM at 1. by rewrite (FreeHost_run _ _ Ho).
Qed.

Lemma AllocDevice_exact (this : Matrix) (s : Mem) :
  owns_dev s this →
  AllocDevice this s =
    Some (set_dev_data (Some (fresh (dom (release (dev_data this) (dev s))))) this,
          mkMem (host s)
                (<[fresh (dom (release (dev_data this) (dev s))) :=
                     replicate (Runtime.elems (Int.bytes_of (Size this))) None]>
                   (release (dev_data this) (dev s)))).
Proof.
  intros Ho. unfold AllocDevice, bindM at 1. by rewrite (FreeDevice_run _ _ Ho).
Qed.

(** X8: [AllocHost] and [AllocDevice] never leak and lose the data.  On a
    matrix that owns its buffers each returns with the old block released
    and the pointer at a block that was not live, of [rows * cols]
    indeterminate cells, the other heap untouched; and allocating, freeing
    and allocating again returns exactly what allocating once returns. *)
Theorem Alloc_replaces_block (this : Matrix) (s : Mem) :
  dims_ok this → owns_host s this → owns_dev s this →
  (∃ p, AllocHost this s =
          Some (set_data (Some p) this,
                mkMem (<[p := replicate (Z.to_nat (rows this * cols this)) None]>
                         (release (data this) (host s)))
                      (dev s)) ∧
        release (data this) (host s) !! p = None) ∧
  (do m <- AllocHost this; do m <- FreeHost m; AllocHost m) s = AllocHost this s ∧
  (∃ d, AllocDevice this s =
          Some (set_dev_data (Some d) this,
                mkMem (host s)
                      (<[d := replicate (Z.to_nat (rows this * cols this)) None]>
                         (release (dev_data this) (dev s)))) ∧
        release (dev_data this) (dev s) !! d = None) ∧
  (do m <- AllocDevice this; do m <- FreeDevice m; AllocDevice m) s = AllocDevice this s.
Proof.
  intros Hd Hh Hv.
  pose proof (AllocHost_exact this s Hh) as HA.
  pose proof (AllocDevice_exact this s Hv) as HD.
  set (H := release (data this) (host s)) in *.
  set (D := release (dev_data this) (dev s)) in *.
  assert (H !! fresh (dom H) = None) as HfH by apply not_elem_of_dom, is_fresh.
  assert (D !! fresh (dom D) = None) as HfD by apply not_elem_of_dom, is_fresh.
  split; [rewrite HA, (elems_Size _ Hd); by eexists|]. split.
  { unfold bindM. rewrite HA.
    rewrite FreeHost_run by (intros ? [= <-]; simpl; rewrite lookup_insert_eq; by eexists).
    simpl. rewrite (delete_insert_id _ _ _ HfH).
    by rewrite AllocHost_exact by (intros ? [=]). }
  split; [rewrite HD, (elems_Size _ Hd); by eexists|].
  unfold bindM. rewrite HD.
  rewrite FreeDevice_run by (intros ? [= <-]; simpl; rewrite lookup_insert_eq; by eexists).
  simpl. rewrite (delete_insert_id _ _ _ HfD).
  by rewrite AllocDevice_exact by (intros ? [=]).
Qed.

Lemma Alloc_replaces_block_witness :
  (∃ p, AllocHost Ex.mA Ex.sAB =
          Some (set_data (Some p) Ex.mA,
                mkMem (<[p := replicate (Z.to_nat (rows Ex.mA * cols Ex.mA)) None]>
                         (release (data Ex.mA) (host Ex.sAB)))
                      (dev Ex.sAB)) ∧
        release (data Ex.mA) (host Ex.sAB) !! p = None) ∧
  (do m <- AllocHost Ex.mA; do m <- FreeHost m; AllocHost m) Ex.sAB = AllocHost Ex.mA Ex.sAB ∧
  (∃ d, AllocDevice Ex.mA Ex.sAB =
          Some (set_dev_data (Some d) Ex.mA,
                mkMem (host Ex.sAB)
                      (<[d := replicate (Z.to_nat (rows Ex.mA * cols Ex.mA)) None]>
                         (release (dev_data Ex.mA) (dev Ex.sAB)))) ∧
        release (dev_data Ex.mA) (dev Ex.sAB) !! d = None) ∧
  (do m <- AllocDevice Ex.mA; do m <- FreeDevice m; AllocDevice m) Ex.sAB =
    AllocDevice Ex.mA Ex.sAB.
Proof.
  apply (Alloc_replaces_block Ex.mA Ex.sAB);
    [concrete_dims|concrete_block|concrete_block].
Defined.

(** X9: the destructor of a matrix that owns its buffers returns with
    both pointers null, the dimensions kept, and each heap being the heap
    before less the block the matrix owned; running it a second time
    changes nothing. *)
Theorem Matrix_destroy_releases (this : Matrix) (s : Mem) :
  owns_host s this → owns_dev s this →
  ∃ this' s',
    Matrix_destroy this s = Some (this', s') ∧
    data this' = nullptr ∧ dev_data this' = nullptr ∧
    rows this' = rows this ∧ cols this' = cols this ∧
    host s' = release (data this) (host s) ∧
    dev s' = release (dev_data this) (dev s) ∧
    Matrix_destroy this' s' = Some (this', s').
Proof.
  intros Hh Hv. eexists _, _. split; [by apply Matrix_destroy_run|].
  do 6 (split; [reflexivity|]). by apply Matrix_destroy_null.
Qed.

Lemma Matrix_destroy_releases_witness :
  ∃ this' s',
    Matrix_destroy Ex.mB Ex.sAB = Some (this', s') ∧
    data this' = nullptr ∧ dev_data this' = nullptr ∧
    rows this' = rows Ex.mB ∧ cols this' = cols Ex.mB ∧
    host s' = release (data Ex.mB) (host Ex.sAB) ∧
    dev s' = release (dev_data Ex.mB) (dev Ex.sAB) ∧
    Matrix_destroy this' s' = Some (this', s').
Proof.
  apply (Matrix_destroy_releases Ex.mB Ex.sAB); concrete_block.
Defined.

(** X10: ownership moves with the move constructor.  Constructing a
    matrix from a source that owns its buffers returns, frees and allocates
    nothing, gives the new matrix the pointers and dimensions of the source
    and nulls the pointers of the source; destroying the source and then
    the new matrix returns and releases the blocks exactly once: the heaps
    end as the heaps before less the blocks the source owned. *)
Theorem move_construct_then_destroy (other : Matrix) (s : Mem) :
  owns_host s other → owns_dev s other →
  move_construct other s =
    Some ((mkMatrix (data other) (dev_data other) (rows other) (cols other),
           mkMatrix nullptr nullptr (rows other) (cols other)),
          s) ∧
  (do r <- move_construct other;
   do o <- Matrix_destroy (snd r);
   Matrix_destroy (fst r)) s =
    Some (mkMatrix nullptr nullptr (rows other) (cols other),
          mkMem (release (data other) (host s)) (release (dev_data other) (dev s))).
Proof.
  intros Hh Hv. split; [reflexivity|].
  unfold bindM. change (move_construct other s) with
    (Some ((mkMatrix (data other) (dev_data other) (rows other) (cols other),
            mkMatrix nullptr nullptr (rows other) (cols other)), s)).
  simpl. by rewrite Matrix_destroy_run.
Qed.

Lemma move_construct_then_destroy_witness :
  move_construct Ex.mA Ex.sAB =
    Some ((mkMatrix (data Ex.mA) (dev_data Ex.mA) (rows Ex.mA) (cols Ex.mA),
           mkMatrix nullptr nullptr (rows Ex.mA) (cols Ex.mA)),
          Ex.sAB) ∧
  (do r <- move_construct Ex.mA;
   do o <- Matrix_destroy (snd r);
   Matrix_destroy (fst r)) Ex.sAB =
    Some (mkMatrix nullptr nullptr (rows Ex.mA) (cols Ex.mA),
          mkMem (release (data Ex.mA) (host Ex.sAB))
                (release (dev_data Ex.mA) (dev Ex.sAB))).
Proof.
  apply (move_construct_then_destroy Ex.mA Ex.sAB); concrete_block.
Defined.

(** X11: moving there and back.  After [B = move(A)] and then
    [A = move(B)], with [B] owning its buffers at the start, [A] is exactly
    what it was, [B] has both pointers null and the dimensions of [A], and
    the heaps have lost the blocks [B] owned at the start and nothing
    else. *)
Theorem move_there_and_back (A B : Matrix) (s : Mem) :
  owns_host s B → owns_dev s B →
  (do r <- move_assign B A; move_assign (snd r) (fst r)) s =
    Some ((A, mkMatrix nullptr nullptr (rows A) (cols A)),
          mkMem (release (data B) (host s)) (release (dev_data B) (dev s))).
Proof.
  intros Hh Hv. unfold bindM. rewrite (move_assign_run _ _ _ Hh Hv). simpl.
  rewrite move_assign_run by (intros ? [=]).
  by destruct A.
Qed.

Lemma move_there_and_back_witness :
  (do r <- move_assign Ex.mB Ex.mA; move_assign (snd r) (fst r)) Ex.sAB =
    Some ((Ex.mA, mkMatrix nullptr nullptr (rows Ex.mA) (cols Ex.mA)),
          mkMem (release (data Ex.mB) (host Ex.sAB))
                (release (dev_data Ex.mB) (dev Ex.sAB))).
Proof.
  apply (move_there_and_back Ex.mA Ex.mB Ex.sAB); concrete_block.
Defined.

(** ** The dimensions are fixed *)

(** The first step of a sequence that returned: its result and the state
    after it. *)
Ltac bind_inv H E :=
  unfold bindM in H;
  match type of H with
  | match ?c with _ => _ end = _ =>
      let m := fresh "m" in let s := fresh "s" in
      destruct c as [[m s]|] eqn:E; [|discriminate H]
  end.

Lemma keeps_dims_FreeHost : keeps_dims FreeHost.
Proof. intros this s this' s' H. by apply FreeHost_inv in H as [-> _]. Qed.

Lemma keeps_dims_FreeDevice : keeps_dims FreeDevice.
Proof. intros this s this' s' H. by apply FreeDevice_inv in H as [-> _]. Qed.

Lemma keeps_dims_AllocHost : keeps_dims AllocHost.
Proof.
  intros this s this' s' H. unfold AllocHost in H. bind_inv H E.
  apply keeps_dims_FreeHost in E. unfold Runtime.malloc, retM in H.
  by injection H as <- _.
Qed.

Lemma keeps_dims_AllocDevice : keeps_dims AllocDevice.
Proof.
  intros this s this' s' H. unfold AllocDevice in H. bind_inv H E.
  apply keeps_dims_FreeDevice in E. unfold Runtime.cudaMalloc, retM in H.
  by injection H as <- _.
Qed.

Lemma keeps_dims_ensure_dev (this m : Matrix) (s s1 : Mem) :
  (match dev_data this with
   | None => AllocDevice this
   | Some _ => retM this
   end) s = Some (m, s1) →
  rows m = rows this ∧ cols m = cols this.
Proof.
  destruct (dev_data this).
  - by intros [= <- _].
  - apply keeps_dims_AllocDevice.
Qed.

Lemma keeps_dims_ensure_host (this m : Matrix) (s s1 : Mem) :
  (match data this with
   | None => AllocHost this
   | Some _ => retM this
   end) s = Some (m, s1) →
  rows m = rows this ∧ cols m = cols this.
Proof.
  destruct (data this).
  - by intros [= <- _].
  - apply keeps_dims_AllocHost.
Qed.

(** X12: no method changes the dimensions: whenever [FreeHost],
    [FreeDevice], [AllocHost], [AllocDevice], [IntoDevMatrix],
    [IntoDevMatrix_ColMajor], [FromDevMatrix], [FromDevMatrix_ColMajor] or
    the destructor returns, from any matrix and any heaps, [rows] and
    [cols] are what they were. *)
Theorem dimensions_never_change :
  keeps_dims FreeHost ∧ keeps_dims FreeDevice ∧
  keeps_dims AllocHost ∧ keeps_dims AllocDevice ∧
  keeps_dims IntoDevMatrix ∧ keeps_dims IntoDevMatrix_ColMajor ∧
  keeps_dims FromDevMatrix ∧ keeps_dims FromDevMatrix_ColMajor ∧
  keeps_dims Matrix_destroy.
Proof.
  split; [exact keeps_dims_FreeHost|]. split; [exact keeps_dims_FreeDevice|].
  split; [exact keeps_dims_AllocHost|]. split; [exact keeps_dims_AllocDevice|].
  split; [|split; [|split; [|split]]].
  - intros this s this' s' H. unfold IntoDevMatrix in H. bind_inv H E.
    apply keeps_dims_ensure_dev in E. bind_inv H E'. by injection H as <- _.
  - intros this s this' s' H. unfold IntoDevMatrix_ColMajor in H. bind_inv H E.
    apply keeps_dims_ensure_dev in E. bind_inv H E1. bind_inv H E2. bind_inv H E3.
    by injection H as <- _.
  - intros this s this' s' H. unfold FromDevMatrix in H. bind_inv H E.
    apply keeps_dims_ensure_host in E. bind_inv H E'. by injection H as <- _.
  - intros this s this' s' H. unfold FromDevMatrix_ColMajor in H. bind_inv H E.
    apply keeps_dims_ensure_host in E. bind_inv H E1. bind_inv H E2. bind_inv H E3.
    by injection H as <- _.
  - intros this s this' s' H. unfold Matrix_destroy in H. bind_inv H E.
    apply keeps_dims_FreeHost in E. apply keeps_dims_FreeDevice in H.
    destruct E, H. split; congruence.
Qed.

Lemma dimensions_never_change_witness :
  ∃ this' s',
    FromDevMatrix_ColMajor Ex.mD Ex.sD = Some (this', s') ∧
    rows this' = 2 ∧ cols this' = 3.
Proof.
  destruct (FromDevMatrix_ColMajor Ex.mD Ex.sD) as [[m s1]|] eqn:E;
    [|vm_compute in E; discriminate E].
  exists m, s1. split; [reflexivity|].
  destruct dimensions_never_change as (_ & _ & _ & _ & _ & _ & _ & H & _).
  exact (H Ex.mD Ex.sD m s1 E).
Defined.

(** ** Reading elements *)

(** X13: [At(i, j)] on a matrix with a populated host buffer checks no
    bounds on [i] and [j]: whenever the offset [i * cols + j] lies inside
    the buffer (and [i * cols] fits in [int]) it returns the element at
    that offset and leaves the heaps alone, so that [At(i, cols)] is
    [At(i + 1, 0)]. *)
Theorem At_reads_offset (this : Matrix) (s : Mem) (vals : list double) (i j : Z) :
  host_populated s this vals →
  Int.in_range (i * cols this) →
  0 <= i * cols this + j < rows this * cols this →
  ∃ v, At this i j s = Some (v, s) ∧
       vals !! Z.to_nat (i * cols this + j) = Some v.
Proof.
  intros (Hd & Hlen & p & Hdata & Hp) Hmul Hoff.
  destruct (dims_ok_range _ Hd) as [Hrange _].
  destruct (lookup_lt_is_Some_2 vals (Z.to_nat (i * cols this + j))) as [v Hv]; [lia|].
  exists v. split; [|done].
  unfold At, Runtime.load, Int.add, Int.mul.
  rewrite (wrap_small _ Hmul).
  rewrite wrap_small by (unfold Int.in_range, Int.INT_MIN in *; lia).
  rewrite Hdata, Hp, decide_True by lia.
  by rewrite list_lookup_fmap, Hv.
Qed.

Lemma At_reads_offset_witness :
  ∃ v, At Ex.m23 0 3 Ex.s23 = Some (v, Ex.s23) ∧
       Ex.vals23 !! Z.to_nat (0 * cols Ex.m23 + 3) = Some v.
Proof.
  apply (At_reads_offset Ex.m23 Ex.s23 Ex.vals23 0 3).
  - concrete_populated.
  - unfold Int.in_range, Int.INT_MIN, Int.INT_MAX. simpl. lia.
  - simpl. lia.
Defined.

(** X14: [Transposed] loses nothing.  On a matrix with a populated host
    buffer it returns a block that was not live and leaves the host buffer
    and the device heap alone; and [Transposed] run on that block with
    [rows] and [cols] swapped returns a block holding the original
    values. *)
Theorem Transposed_swapped_restores (this : Matrix) (s : Mem) (vals : list double) :
  host_populated s this vals →
  ∃ t s1 t' s2,
    Transposed this s = Some (Some t, s1) ∧
    host s !! t = None ∧
    host_populated s1 this vals ∧
    dev s1 = dev s ∧
    Transposed (mkMatrix (Some t) (dev_data this) (cols this) (rows this)) s1 =
      Some (Some t', s2) ∧
    host s2 !! t' = Some (Some <$> vals).
Proof.
  intros Hpop. pose proof Hpop as (Hd & Hlen & p & Hdata & Hp).
  pose proof Hd as (Hr & Hc & Hmax).
  pose proof (fresh_host_None s) as Hfresh.
  set (t := fresh (dom (host s))) in *.
  assert (t ≠ p) as Htp by (intros ->; congruence).
  set (s1 := mkMem (<[t := Some <$> col_major (rows this) (cols this) vals]> (host s)) (dev s)).
  assert (host_populated s1 (mkMatrix (Some t) (dev_data this) (cols this) (rows this))
            (col_major (rows this) (cols this) vals)) as Hpop1.
  { split; [unfold dims_ok; simpl; lia|].
    split; [simpl; rewrite col_major_length; lia|].
    exists t. split; [done|apply lookup_insert_eq]. }
  eexists t, s1, _, _.
  split; [by apply Transposed_run|]. split; [done|].
  split. { split; [done|]. split; [done|]. exists p. split; [done|]. simpl.
           by rewrite lookup_insert_ne. }
  split; [done|].
  split; [by apply Transposed_run|].
  simpl. by rewrite lookup_insert_eq, col_major_swapped.
Qed.

Lemma Transposed_swapped_restores_witness :
  ∃ t s1 t' s2,
    Transposed Ex.m23 Ex.s23 = Some (Some t, s1) ∧
    host Ex.s23 !! t = None ∧
    host_populated s1 Ex.m23 Ex.vals23 ∧
    dev s1 = dev Ex.s23 ∧
    Transposed (mkMatrix (Some t) (dev_data Ex.m23) (cols Ex.m23) (rows Ex.m23)) s1 =
      Some (Some t', s2) ∧
    host s2 !! t' = Some (Some <$> Ex.vals23).
Proof.
  apply (Transposed_swapped_restores Ex.m23 Ex.s23 Ex.vals23). concrete_populated.
Defined.

(** ** More on [IsDeltaEqual] *)

Lemma abs_round_aux_sign (p e : Z) (s s' : bool) (mx ex : Z) (lx : location) :
  SFabs (binary_round_aux p e s mx ex lx) = SFabs (binary_round_aux p e s' mx ex lx).
Proof.
  unfold binary_round_aux.
  destruct (shr_fexp p e mx ex lx) as [mrs' e'].
  destruct (shr_fexp p e _ e' loc_Exact) as [mrs'' e''].
  destruct (shr_m mrs''); try reflexivity.
  by destruct (Z.leb e'' (Z.sub e p)).
Qed.

Lemma abs_normalize_opp (p e : Z) (m ez : Z) :
  SFabs (binary_normalize p e (- m) ez false) = SFabs (binary_normalize p e m ez false).
Proof.
  destruct m as [|m|m]; simpl; try reflexivity;
    unfold binary_round; destruct (shl_align _ _ _); apply abs_round_aux_sign.
Qed.

(** [|a - b|] and [|b - a|] are the same double. *)
Lemma abs_sub_comm (a b : double) :
  Double.abs (Double.sub a b) = Double.abs (Double.sub b a).
Proof.
  destruct a as [[]|[]| |sa ma ea], b as [[]|[]| |sb mb eb]; try reflexivity.
  unfold Double.abs, Double.sub, SFsub. rewrite (Z.min_comm eb ea).
  set (x := cond_Zopp sa _). set (y := cond_Zopp sb _).
  replace (y - x) with (- (x - y)) by lia. symmetry. apply abs_normalize_opp.
Qed.

Ltac cmp_cases :=
  repeat match goal with
         | |- context [Z.compare ?a ?b] => destruct (Z.compare_spec a b)
         | H : context [Z.compare ?a ?b] |- _ => destruct (Z.compare_spec a b)
         | |- context [Pos.compare_cont Eq ?a ?b] =>
             change (Pos.compare_cont Eq a b) with (Pos.compare a b);
             destruct (Pos.compare_spec a b)
         | H : context [Pos.compare_cont Eq ?a ?b] |- _ =>
             change (Pos.compare_cont Eq a b) with (Pos.compare a b) in H;
             destruct (Pos.compare_spec a b)
         end.

(** [d <= d'] and [d' < x] give [d < x]. *)
Lemma le_gt_trans (d d' x : double) :
  Double.le d d' = true → Double.gt x d' = true → Double.gt x d = true.
Proof.
  unfold Double.le, Double.gt, SFleb, SFltb.
  destruct d as [[]|[]| |[] md ed], d' as [[]|[]| |[] md' ed'], x as [[]|[]| |[] mx ex];
    simpl; try done.
  all: intros H1 H2; cmp_cases; simpl in *; try done; try lia.
Qed.

(** The absolute value of a number exceeds every negative tolerance. *)
Lemma abs_gt_negative (z delta : double) :
  Double.is_nan z = false → Double.gt Double.zero delta = true →
  Double.gt (Double.abs z) delta = true.
Proof. by destruct z as [[]|[]| |[] m e], delta as [[]|[]| |[] m' e']. Qed.

Lemma load_readonly (p : ptr) (k : Z) (s s' : Mem) (v : double) :
  Runtime.load p k s = Some (v, s') → s' = s.
Proof. unfold Runtime.load. intros H. repeat case_match; congruence. Qed.

Lemma delta_loop_readonly (A B : Matrix) (delta : double) :
  ∀ (n : nat) (i : Z) (s s' : Mem) (b : bool),
    delta_loop A B delta n i s = Some (b, s') → s' = s.
Proof.
  induction n as [|n IH]; intros i s s' b H; simpl in H.
  - by injection H as _ <-.
  - unfold bindM in H.
    destruct (Runtime.load (data A) i s) as [[x s1]|] eqn:E1; [|done].
    apply load_readonly in E1 as ->.
    destruct (Runtime.load (data B) i s) as [[y s2]|] eqn:E2; [|done].
    apply load_readonly in E2 as ->.
    destruct (Double.gt _ delta); [by injection H as _ <-|by apply IH in H].
Qed.

(** X15: [IsDeltaEqual] is symmetric: for two matrices with populated
    host buffers, [A.IsDeltaEqual(B, delta)] and [B.IsDeltaEqual(A, delta)]
    both return, with the same result, for every [delta]. *)
Theorem IsDeltaEqual_sym (A B : Matrix) (s : Mem) (va vb : list double) (delta : double) :
  host_populated s A va → host_populated s B vb →
  ∃ b, IsDeltaEqual A B delta s = Some (b, s) ∧
       IsDeltaEqual B A delta s = Some (b, s).
Proof.
  intros HA HB.
  destruct (decide (cols A ≠ cols B ∨ rows A ≠ rows B)) as [Hne|He].
  - exists false. split; apply IsDeltaEqual_mismatch; [done|]. destruct Hne; auto.
  - assert (cols A = cols B ∧ rows A = rows B) as [Hc Hr].
    { split; apply dec_stable; intros ?; apply He; auto. }
    destruct (IsDeltaEqual_run A B s va vb delta HA HB Hc Hr) as (b & Hrun & Hb).
    destruct (IsDeltaEqual_run B A s vb va delta HB HA (eq_sym Hc) (eq_sym Hr))
      as (b' & Hrun' & Hb').
    exists b. split; [done|]. rewrite Hrun'. do 2 f_equal.
    destruct Hb as [Hb1 Hb2], Hb' as [Hb1' Hb2'].
    destruct b, b'; try done.
    + apply Hb2'. intros k y x Hy Hx. rewrite abs_sub_comm. by apply (Hb1 eq_refl k).
    + symmetry. apply Hb2. intros k x y Hx Hy. rewrite abs_sub_comm. by apply (Hb1' eq_refl k).
Qed.

Lemma IsDeltaEqual_sym_witness :
  ∃ b, IsDeltaEqual Ex.mNaN Ex.mZero Double.lit_1e_3 Ex.sNaN = Some (b, Ex.sNaN) ∧
       IsDeltaEqual Ex.mZero Ex.mNaN Double.lit_1e_3 Ex.sNaN = Some (b, Ex.sNaN).
Proof.
  apply (IsDeltaEqual_sym Ex.mNaN Ex.mZero Ex.sNaN [Double.nan] [Double.zero]);
    concrete_populated.
Defined.

(** X16: a larger tolerance accepts whatever a smaller one accepts: for
    two matrices with populated host buffers and [d <= d'], if
    [IsDeltaEqual] returns true with tolerance [d] it returns true with
    tolerance [d']. *)
Theorem IsDeltaEqual_mono (A B : Matrix) (s : Mem) (va vb : list double) (d d' : double) :
  host_populated s A va → host_populated s B vb →
  Double.le d d' = true →
  IsDeltaEqual A B d s = Some (true, s) →
  IsDeltaEqual A B d' s = Some (true, s).
Proof.
  intros HA HB Hle Htrue.
  destruct (decide (cols A ≠ cols B ∨ rows A ≠ rows B)) as [Hne|He].
  - by rewrite (IsDeltaEqual_mismatch A B d s Hne) in Htrue.
  - assert (cols A = cols B ∧ rows A = rows B) as [Hc Hr].
    { split; apply dec_stable; intros ?; apply He; auto. }
    destruct (IsDeltaEqual_run A B s va vb d HA HB Hc Hr) as (b & Hrun & Hb).
    destruct (IsDeltaEqual_run A B s va vb d' HA HB Hc Hr) as (b' & Hrun' & Hb').
    rewrite Hrun in Htrue. injection Htrue as ->.
    rewrite Hrun'. do 2 f_equal. apply Hb'. intros k x y Hx Hy.
    destruct (Double.gt (Double.abs (Double.sub x y)) d') eqn:Hgt; [|done].
    apply (le_gt_trans d) in Hgt; [|done].
    by rewrite (proj1 Hb eq_refl k x y Hx Hy) in Hgt.
Qed.

Lemma IsDeltaEqual_mono_witness :
  IsDeltaEqual Ex.m23 Ex.m23 Double.lit_1e_3 Ex.s23 = Some (true, Ex.s23).
Proof.
  apply (IsDeltaEqual_mono Ex.m23 Ex.m23 Ex.s23 Ex.vals23 Ex.vals23 Double.zero);
    [concrete_populated|concrete_populated|reflexivity|reflexivity].
Defined.

(** X17: a negative tolerance rejects every difference that is a number:
    for two matrices of equal dimensions with populated host buffers whose
    first elements differ by a number (not NaN), [IsDeltaEqual] with
    [delta < 0] returns false; so a matrix of finite values is then not
    delta-equal to itself. *)
Theorem IsDeltaEqual_negative_delta (A B : Matrix) (s : Mem) (va vb : list double)
    (delta x y : double) :
  host_populated s A va → host_populated s B vb →
  cols A = cols B → rows A = rows B →
  va !! 0%nat = Some x → vb !! 0%nat = Some y →
  Double.is_nan (Double.sub x y) = false →
  Double.gt Double.zero delta = true →
  IsDeltaEqual A B delta s = Some (false, s).
Proof.
  intros HA HB Hc Hr Hx Hy Hnum Hneg.
  destruct (IsDeltaEqual_run A B s va vb delta HA HB Hc Hr) as (b & Hrun & Hb).
  rewrite Hrun. do 2 f_equal. destruct b; [|done].
  pose proof (proj1 Hb eq_refl 0%nat x y Hx Hy) as Hgt.
  by rewrite (abs_gt_negative _ _ Hnum Hneg) in Hgt.
Qed.

Lemma IsDeltaEqual_negative_delta_witness :
  IsDeltaEqual Ex.m23 Ex.m23 (Double.of_Z (-1)) Ex.s23 = Some (false, Ex.s23).
Proof.
  apply (IsDeltaEqual_negative_delta Ex.m23 Ex.m23 Ex.s23 Ex.vals23 Ex.vals23
           (Double.of_Z (-1)) (Double.of_Z 1) (Double.of_Z 1));
    [concrete_populated|concrete_populated|reflexivity..].
Defined.

(** X18: two matrices of equal dimensions with [rows = 0] or [cols = 0]
    are delta-equal whatever else holds: [IsDeltaEqual] returns true
    without reading memory, for null pointers and for every [delta], NaN
    and negative ones included. *)
Theorem IsDeltaEqual_empty (this other : Matrix) (delta : double) (s : Mem) :
  rows this = 0 ∨ cols this = 0 →
  cols this = cols other → rows this = rows other →
  IsDeltaEqual this other delta s = Some (true, s).
Proof.
  intros H0 Hc Hr. unfold IsDeltaEqual.
  rewrite decide_False by (intros [|]; done).
  assert (Size this = 0) as ->; [|done].
  unfold Size, Int.mul. destruct H0 as [-> | ->]; by rewrite ?Z.mul_0_r.
Qed.

Lemma IsDeltaEqual_empty_witness :
  IsDeltaEqual (Matrix_sized 5 0) (Matrix_sized 5 0) Double.nan (mkMem ∅ ∅) =
    Some (true, mkMem ∅ ∅).
Proof.
  apply (IsDeltaEqual_empty (Matrix_sized 5 0) (Matrix_sized 5 0) Double.nan (mkMem ∅ ∅));
    [left; reflexivity|reflexivity|reflexivity].
Defined.

(** X19: comparing and reading never write: whenever [IsDeltaEqual] or
    [At] returns, on any matrices and any heaps, both heaps are exactly
    what they were. *)
Theorem comparison_and_read_change_nothing :
  (∀ (A B : Matrix) (delta : double) (s s' : Mem) (b : bool),
     IsDeltaEqual A B delta s = Some (b, s') → s' = s) ∧
  (∀ (this : Matrix) (i j : Z) (s s' : Mem) (v : double),
     At this i j s = Some (v, s') → s' = s).
Proof.
  split.
  - intros A B delta s s' b H. unfold IsDeltaEqual in H.
    destruct (decide _); [by injection H as _ <-|].
    by apply delta_loop_readonly in H.
  - intros this i j s s' v H. by apply load_readonly in H.
Qed.

Lemma comparison_and_read_change_nothing_witness :
  IsDeltaEqual Ex.m23 Ex.m23 Double.lit_1e_3 Ex.s23 = Some (true, Ex.s23) ∧
  Ex.s23 = Ex.s23.
Proof.
  split; [reflexivity|].
  apply (proj1 comparison_and_read_change_nothing Ex.m23 Ex.m23 Double.lit_1e_3
           Ex.s23 Ex.s23 true).
  reflexivity.
Defined.

(** ** The status strings *)

(** X20: [cublasGetErrorString] tells the listed statuses apart and
    nothing else: two status values get the same string exactly when they
    are equal or when the [switch] lists neither of them, and the string is
    "unknown error" exactly for a value that the [switch] does not list. *)
Theorem cublasGetErrorString_same_string (E : cublas_enum) :
  (∀ a b : Z,
     cublasGetErrorString E a = cublasGetErrorString E b ↔
     a = b ∨ ((a ∉ cublas_listed E) ∧ (b ∉ cublas_listed E))) ∧
  (∀ a : Z,
     cublasGetErrorString E a = "unknown error"%string ↔ a ∉ cublas_listed E).
Proof.
  assert (∀ a : Z,
            cublasGetErrorString E a = "unknown error"%string ↔ a ∉ cublas_listed E)
    as Hunknown.
  { intros a. unfold cublasGetErrorString, cublas_listed.
    rewrite !not_elem_of_cons.
    repeat destruct (decide _) as [?|?];
      (split; [intros Hs; try discriminate Hs|intros Hn]).
    all: try (exfalso; tauto).
    all: try reflexivity.
    repeat split; try done. apply not_elem_of_nil. }
  split; [|exact Hunknown].
  intros a b. split.
  - intros Heq.
    destruct (decide (a ∈ cublas_listed E)) as [Ha|Ha].
    + left. revert Ha Heq. unfold cublasGetErrorString, cublas_listed.
      rewrite !elem_of_cons, elem_of_nil. intros Ha.
      repeat destruct (decide _) as [?|?]; try discriminate; try congruence.
      all: try (intros _; exfalso; tauto).
    + right. split; [done|]. apply Hunknown. rewrite <- Heq. by apply Hunknown.
  - intros [-> | [Ha Hb]]; [done|].
    apply Hunknown in Ha, Hb. by rewrite Ha, Hb.
Qed.

Lemma cublasGetErrorString_same_string_witness :
  cublasGetErrorString Ex.cublas_values 15 = cublasGetErrorString Ex.cublas_values 16.
Proof.
  apply (proj1 (cublasGetErrorString_same_string Ex.cublas_values)).
  right. unfold cublas_listed. simpl. rewrite !not_elem_of_cons.
  split; repeat split; try apply not_elem_of_nil; discriminate.
Defined.
